(** * hterm/js/google_relay.js: the XHR backed relay socket

    A shallow embedding of [hterm.NaSSH.GoogleRelay.Socket]: the web-safe
    base64 codec, the write queue, the hanging-GET read loop and the
    exponential backoff of [onRequestError_], followed by the properties
    the specification states about them.

    Conventions of the embedding.
    - A JavaScript string is a list of characters ([str]); [length] is the
      [.length] of the source.
    - Numbers are integers of [Z].  The source computes with doubles, which
      are exact on every value met here while it stays below 2^53.
    - A method of the socket is a computation of the monad [M]: it reads and
      updates the fields of [this], appends to the list of effects it has on
      the outside world (requests, timers, overlay, callbacks, console), and
      either completes normally or throws.  Fields written before a [throw]
      stay written, as in JavaScript. *)

From Stdlib Require Import Ascii String List ZArith Lia Bool Arith.
From Equations Require Import Equations.
From Stdlib Require DecimalString.
Import ListNotations.

Set Implicit Arguments.

(** ** Strings *)

Definition str := list ascii.

Definition lit (s : string) : str := list_ascii_of_string s.

(** [s.replace(/[...]/g, f)] for a character class [cls] and a callback [f]:
    every character of the class is replaced by what the callback returns,
    the others are kept. *)
Definition replace_all (cls : ascii -> bool) (f : ascii -> str) (s : str) : str :=
  flat_map (fun ch => if cls ch then f ch else [ch]) s.

(** ** Objects *)

(** [hterm.NaSSH.GoogleRelay]: the relay the socket talks to.  [relayServer]
    is the url prefix computed by [init]. *)
Record GoogleRelay := mkRelay {
  proxy : str;
  relayServer : str
}.

(** Lifecycle of the inherited [hterm.NaSSH.Stream] part of the object
    (specification, section 3). *)
Inductive StreamLifecycle := Opening | Open | Closed.

(** The fields of [hterm.NaSSH.GoogleRelay.Socket].  The record describes the
    object from the first lines of [asyncOpen_] on, where [relay_], [host_]
    and [port_] are stored: no request exists before that, and every handler
    below runs in answer to a request. *)
Record Socket := mkSocket {
  lifecycle : StreamLifecycle;
  host_ : str;
  port_ : Z;
  relay_ : GoogleRelay;
  sessionID_ : str;
  backoffMS_ : Z;
  writeQueue_ : list str;
  writeCount_ : Z;
  readCount_ : Z
}.

Definition set_lifecycle (l : StreamLifecycle) (s : Socket) : Socket :=
  mkSocket l (host_ s) (port_ s) (relay_ s) (sessionID_ s) (backoffMS_ s)
           (writeQueue_ s) (writeCount_ s) (readCount_ s).

Definition set_backoffMS_ (b : Z) (s : Socket) : Socket :=
  mkSocket (lifecycle s) (host_ s) (port_ s) (relay_ s) (sessionID_ s) b
           (writeQueue_ s) (writeCount_ s) (readCount_ s).

Definition set_writeQueue_ (q : list str) (s : Socket) : Socket :=
  mkSocket (lifecycle s) (host_ s) (port_ s) (relay_ s) (sessionID_ s)
           (backoffMS_ s) q (writeCount_ s) (readCount_ s).

Definition set_writeCount_ (n : Z) (s : Socket) : Socket :=
  mkSocket (lifecycle s) (host_ s) (port_ s) (relay_ s) (sessionID_ s)
           (backoffMS_ s) (writeQueue_ s) n (readCount_ s).

Definition set_readCount_ (n : Z) (s : Socket) : Socket :=
  mkSocket (lifecycle s) (host_ s) (port_ s) (relay_ s) (sessionID_ s)
           (backoffMS_ s) (writeQueue_ s) (writeCount_ s) n.

(** The two [XMLHttpRequest] objects of a socket; [e.target] of an event is
    one of them. *)
Inductive Target := readRequest_ | writeRequest_.

(** What a handler looks at in the request that completed. *)
Record Xhr := mkXhr {
  readyState : Z;
  status : Z;
  responseText : str
}.

(** The urls the socket builds, kept as their parts:
    [relayServer + 'read?sid=' + sid + '&rcnt=' + rcnt] and
    [relayServer + 'write?sid=' + sid + '&wcnt=' + wcnt + '&data=' + msg]. *)
Inductive Url :=
| ReadUrl (server sid : str) (rcnt : Z)
| WriteUrl (server sid : str) (wcnt : Z) (msg : str).

(** The function handed to [setTimeout]: [resumeRead_.bind(this)] or
    [serviceWriteQueue_.bind(this)]. *)
Inductive Retry := RetryResumeRead | RetryServiceWriteQueue.

Inductive LogMsg :=
| LogRecovered
| LogReadError (ms : Z)
| LogWriteError (ms : Z).

Inductive Effect :=
| XhrGet (t : Target) (u : Url)      (* t.open('GET', u, true); t.send() *)
| SetTimeout (f : Retry) (ms : Z)    (* setTimeout(f, ms) *)
| ShowOverlay (ms : Z)               (* io.showOverlay(msg('RELAY_RETRY'), ms) *)
| OnDataAvailable (data : str)       (* this.onDataAvailable(data) *)
| ConsoleLog (m : LogMsg).

Inductive Exn :=
| TypeError
| WriteCallbackNotImplemented
| InvalidWebSafeLength (n : nat).

(** ** The monad of methods *)

Inductive Completion (A : Type) :=
| Normal (a : A)
| Throw (e : Exn).
Arguments Normal {A} a.
Arguments Throw {A} e.

Definition M (A : Type) : Type := Socket -> Completion A * Socket * list Effect.

Definition ret {A} (a : A) : M A := fun s => (Normal a, s, []).

Definition bind {A B} (m : M A) (k : A -> M B) : M B := fun s =>
  match m s with
  | (Normal a, s1, e1) =>
      match k a s1 with (r, s2, e2) => (r, s2, e1 ++ e2) end
  | (Throw x, s1, e1) => (Throw x, s1, e1)
  end.

Definition get : M Socket := fun s => (Normal s, s, []).
Definition modify (f : Socket -> Socket) : M unit := fun s => (Normal tt, f s, []).
Definition emit (e : Effect) : M unit := fun s => (Normal tt, s, [e]).
Definition throw {A} (x : Exn) : M A := fun s => (Throw x, s, []).

Declare Scope method_scope.
Delimit Scope method_scope with method.
Notation "x <- m ;; k" := (bind m (fun x => k))
  (at level 61, m at next level, right associativity) : method_scope.
Notation "m ;; k" := (bind m (fun _ => k))
  (at level 61, right associativity) : method_scope.
Local Open Scope method_scope.

Definition completion {A} (r : Completion A * Socket * list Effect) : Completion A :=
  fst (fst r).
Definition after {A} (r : Completion A * Socket * list Effect) : Socket :=
  snd (fst r).
Definition effects {A} (r : Completion A * Socket * list Effect) : list Effect :=
  snd r.

(** ** The inherited [close] *)

(** Modelled from the spec: [close()] is inherited from [hterm.NaSSH.Stream],
    whose source is not part of this file.  Specification, sections 3 and 4.5:
    close moves the stream to [Closed] from any state.  It acts on the object:
    a timer started by [setTimeout] lives in the event loop, and
    [onRequestError_] drops the identifier [setTimeout] returns, so the object
    keeps no name for it. *)
Definition close : M unit := modify (set_lifecycle Closed).

(** ** Codec *)

Definition webSafeToBase64_ (s : str) : M str :=
  let s := replace_all (fun ch => (ch =? "-")%char || (ch =? "_")%char)
                       (fun ch => if (ch =? "-")%char then ["+"%char] else ["/"%char]) s in
  if (length s mod 4 =? 2)%nat then ret (s ++ ["="%char; "="%char])
  else if (length s mod 4 =? 3)%nat then ret (s ++ ["="%char])
  else if negb (length s mod 4 =? 0)%nat then
    close ;; throw (InvalidWebSafeLength (length s))
  else ret s.

Definition base64ToWebSafe_ (s : str) : str :=
  replace_all (fun ch => (ch =? "+")%char || (ch =? "/")%char || (ch =? "=")%char)
              (fun ch => if (ch =? "+")%char then ["-"%char]
                         else if (ch =? "/")%char then ["_"%char]
                         else []) s.

(** ** Requests *)

Definition maxMessageLength : nat := 1024.

Definition resumeRead_ : M unit :=
  s <- get ;;
  emit (XhrGet readRequest_
          (ReadUrl (relayServer (relay_ s)) (sessionID_ s) (readCount_ s))).

Definition serviceWriteQueue_ : M unit :=
  s <- get ;;
  match writeQueue_ s with
  | [] => ret tt
  | msg :: _ =>
      emit (XhrGet writeRequest_
              (WriteUrl (relayServer (relay_ s)) (sessionID_ s) (writeCount_ s) msg))
  end.

Opaque maxMessageLength.

(** The [while] loop of [asyncWrite] on the pair (queue, data): while [data]
    is longer than [maxMessageLength] its first [maxMessageLength] characters
    are pushed on the queue and dropped from [data]. *)
Equations? pushChunks (queue : list str) (data : str) : list str * str
  by wf (length data) lt :=
pushChunks queue data with le_lt_dec (length data) maxMessageLength := {
  | left _ => (queue, data)
  | right _ =>
      pushChunks (queue ++ [firstn maxMessageLength data])
                 (skipn maxMessageLength data) }.
Proof.
  rewrite length_skipn.
  assert (maxMessageLength = 1024%nat) by reflexivity. lia.
Qed.

(** ** Writing *)

(** [asyncWrite(data, onWrite)]; [onWrite] tells whether a callback was
    passed. *)
Definition asyncWrite (data : str) (onWrite : bool) : M unit :=
  if onWrite then throw WriteCallbackNotImplemented
  else if (length data =? 0)%nat then ret tt
  else
    s <- get ;;
    let needService := (length (writeQueue_ s) =? 0)%nat in
    let data := base64ToWebSafe_ data in
    match pushChunks (writeQueue_ s) data with
    | (queue, data) =>
        modify (set_writeQueue_ (queue ++ [data])) ;;
        if needService then serviceWriteQueue_ else ret tt
    end.

(** ** Backoff *)

Definition clearBackoff_ : M unit :=
  s <- get ;;
  (if negb (backoffMS_ s =? 0)%Z then emit (ConsoleLog LogRecovered) else ret tt) ;;
  modify (set_backoffMS_ 0%Z).

Definition onRequestError_ (e : Target) : M unit :=
  s <- get ;;
  (if (backoffMS_ s =? 0)%Z then modify (set_backoffMS_ 1%Z) else ret tt) ;;
  s <- get ;;
  retryFunction <-
    match e with
    | readRequest_ =>
        emit (ConsoleLog (LogReadError (backoffMS_ s))) ;; ret RetryResumeRead
    | writeRequest_ =>
        emit (ConsoleLog (LogWriteError (backoffMS_ s))) ;; ret RetryServiceWriteQueue
    end ;;
  (if (1000 <=? backoffMS_ s)%Z
   then emit (ShowOverlay (backoffMS_ s + 500)%Z) else ret tt) ;;
  emit (SetTimeout retryFunction (backoffMS_ s)) ;;
  modify (set_backoffMS_ (backoffMS_ s * 2 + 93)%Z).

(** What a pending timer runs when it fires. *)
Definition retry (f : Retry) : M unit :=
  match f with
  | RetryResumeRead => resumeRead_
  | RetryServiceWriteQueue => serviceWriteQueue_
  end.

(** ** Completion handlers *)

Section Handlers.

(** [onReadReady_] and [onWriteDone_] hand a completion whose status is
    neither 200 nor 410 to [this.onRequestError(e)], without the trailing
    underscore.  This file defines no property of that name; what the call
    does is whatever the prototype chain makes of it, and is a parameter
    here. *)
Variable onRequestError : Target -> M unit.

Definition onReadReady_ (e : Target) (req : Xhr) : M unit :=
  if negb (readyState req =? 4)%Z then ret tt
  else if (status req =? 410)%Z then close
  else if negb (status req =? 200)%Z then onRequestError e
  else
    modify (fun s =>
      set_readCount_
        (readCount_ s + Z.of_nat (length (responseText req)) * 3 / 4)%Z s) ;;
    data <- webSafeToBase64_ (responseText req) ;;
    emit (OnDataAvailable data) ;;
    clearBackoff_ ;;
    resumeRead_.

Definition onWriteDone_ (e : Target) (req : Xhr) : M unit :=
  if negb (readyState req =? 4)%Z then ret tt
  else if (status req =? 410)%Z then close
  else if negb (status req =? 200)%Z then onRequestError e
  else
    s <- get ;;
    match writeQueue_ s with
    | [] => throw TypeError             (* this.writeQueue_[0].length *)
    | msg :: rest =>
        let lastCount := length msg in
        modify (set_writeQueue_ rest) ;;
        modify (fun s =>
          set_writeCount_ (writeCount_ s + Z.of_nat lastCount * 3 / 4)%Z s) ;;
        clearBackoff_ ;;
        serviceWriteQueue_
    end.

(** ** The event loop

    The socket, the timers [setTimeout] has started and that have not fired
    yet, and everything the socket has done to the outside so far. *)
Record World := mkWorld {
  sock : Socket;
  timers : list (Retry * Z);
  trace : list Effect
}.

Inductive Event :=
| LoadEnd (t : Target) (req : Xhr)   (* onloadend of t *)
| Failure (t : Target)               (* ontimeout, onabort or onerror of t *)
| TimerFires (n : nat)               (* the n-th pending timer fires *)
| CallAsyncWrite (data : str) (onWrite : bool)
| CallClose.

Definition scheduled (es : list Effect) : list (Retry * Z) :=
  flat_map (fun e => match e with SetTimeout f ms => [(f, ms)] | _ => [] end) es.

(** Run a method on the socket of the world.  An exception of the method
    ends the callback; what it did before stays done. *)
Definition absorb {A} (m : M A) (w : World) : World :=
  let r := m (sock w) in
  mkWorld (after r) (timers w ++ scheduled (effects r)) (trace w ++ effects r).

Definition dispatch (ev : Event) (w : World) : World :=
  match ev with
  | LoadEnd readRequest_ req => absorb (onReadReady_ readRequest_ req) w
  | LoadEnd writeRequest_ req => absorb (onWriteDone_ writeRequest_ req) w
  | Failure t => absorb (onRequestError_ t) w
  | TimerFires n =>
      match nth_error (timers w) n with
      | Some (f, _) =>
          absorb (retry f)
            (mkWorld (sock w) (firstn n (timers w) ++ skipn (S n) (timers w))
                     (trace w))
      | None => w
      end
  | CallAsyncWrite data onWrite => absorb (asyncWrite data onWrite) w
  | CallClose => absorb close w
  end.

Definition run (evs : list Event) (w : World) : World :=
  fold_left (fun w ev => dispatch ev w) evs w.

(** ** The read loop against a scripted transport

    One entry of the script per read request, in the order the requests are
    sent: the request either completes ([onloadend]) or fails ([onerror],
    [onabort], [ontimeout]).  After the handler the due timers fire.  The
    next entry is used when a further read request has gone out, otherwise
    the loop has ended. *)
Inductive Outcome := Completes (req : Xhr) | Fails.

Definition answer (t : Target) (o : Outcome) : Event :=
  match o with
  | Completes req => LoadEnd t req
  | Fails => Failure t
  end.

Definition is_read_request (e : Effect) : bool :=
  match e with XhrGet readRequest_ _ => true | _ => false end.

Definition is_delivery (e : Effect) : bool :=
  match e with OnDataAvailable _ => true | _ => false end.

Definition reads_sent (w : World) : nat := length (filter is_read_request (trace w)).
Definition reads_delivered (w : World) : nat := length (filter is_delivery (trace w)).

Definition fireTimers (w : World) : World :=
  Nat.iter (length (timers w)) (dispatch (TimerFires 0)) w.

Fixpoint readLoop (script : list Outcome) (w : World) : World :=
  match script with
  | [] => w
  | o :: rest =>
      let w1 := fireTimers (dispatch (answer readRequest_ o) w) in
      if (reads_sent w <? reads_sent w1)%nat then readLoop rest w1 else w1
  end.

End Handlers.

(** The socket once the session request of [asyncOpen_] has completed with
    status 200 and body [sid]: the fields as the constructor and [asyncOpen_]
    leave them, the session id stored, and the first hanging GET sent by
    [resumeRead_]. *)
Definition openedSocket (relay : GoogleRelay) (host : str) (port : Z) (sid : str) : Socket :=
  mkSocket Open host port relay sid 0%Z [] 0%Z 0%Z.

Definition openedWorld (relay : GoogleRelay) (host : str) (port : Z) (sid : str) : World :=
  absorb resumeRead_ (mkWorld (openedSocket relay host port sid) [] []).

(** Two readings of the missing [onRequestError]. *)

(** No prototype defines the property: calling [undefined] is a TypeError. *)
Definition onRequestError_undefined : Target -> M unit :=
  fun _ => throw TypeError.

(** Modelled from the spec: [onRequestError], which this file calls and does
    not define.  Specification, section 7: a completion with any status other
    than 200 and 410 is a transient error, recovered by the backoff handler. *)
Definition onRequestError_spec : Target -> M unit := onRequestError_.

(** ** Standard base64, as the callers of [asyncWrite] produce it *)

Definition is_base64_char (c : ascii) : bool :=
  let n := nat_of_ascii c in
  ((65 <=? n) && (n <=? 90) || (97 <=? n) && (n <=? 122)
   || (48 <=? n) && (n <=? 57))%nat
  || (c =? "+")%char || (c =? "/")%char.

(** Characters of the alphabet followed by at most two ['=']. *)
Fixpoint base64_shape (x : str) : bool :=
  match x with
  | [] => true
  | c :: r =>
      if is_base64_char c then base64_shape r
      else forallb (Ascii.eqb "=") x && (length x <=? 2)%nat
  end.

(** Padded standard base64: the shape above, on a length divisible by 4. *)
Definition valid_base64 (x : str) : bool :=
  (length x mod 4 =? 0)%nat && base64_shape x.

(** The character maps the two [replace] calls of the codec compute. *)
Definition fromWebSafeChar (ch : ascii) : ascii :=
  if (ch =? "-")%char then "+"%char
  else if (ch =? "_")%char then "/"%char else ch.

(** ** Vocabulary of the properties *)

Definition toWebSafeChar (ch : ascii) : ascii :=
  if (ch =? "+")%char then "-"%char
  else if (ch =? "/")%char then "_"%char else ch.

(** The delay a failure waits in state [s]: [backoffMS_] once a 0 has been
    replaced by 1. *)
Definition retryDelay (s : Socket) : Z :=
  if (backoffMS_ s =? 0)%Z then 1%Z else backoffMS_ s.

Definition retryFunction (e : Target) : Retry :=
  match e with
  | readRequest_ => RetryResumeRead
  | writeRequest_ => RetryServiceWriteQueue
  end.

Definition backoffLog (e : Target) (ms : Z) : LogMsg :=
  match e with
  | readRequest_ => LogReadError ms
  | writeRequest_ => LogWriteError ms
  end.

Definition overlays (es : list Effect) : list Z :=
  flat_map (fun e => match e with ShowOverlay ms => [ms] | _ => [] end) es.

(** Failures in a row, with no success in between. *)
Fixpoint consecutiveFailures (es : list Target) : M unit :=
  match es with
  | [] => ret tt
  | e :: rest => onRequestError_ e ;; consecutiveFailures rest
  end.

(** The sequence of the specification: 1, then [next = prev * 2 + 93]. *)
Fixpoint nthDelay (i : nat) : Z :=
  match i with
  | O => 1%Z
  | S j => (nthDelay j * 2 + 93)%Z
  end.

Definition ceil_div (n m : nat) : nat := ((n + (m - 1)) / m)%nat.

(** A completed read the loop accepts: done, status 200, and a body whose
    length [webSafeToBase64_] can pad. *)
Definition good_read (req : Xhr) : bool :=
  (readyState req =? 4)%Z && (status req =? 200)%Z
  && negb (length (responseText req) mod 4 =? 1)%nat.

Definition readCount_after (req : Xhr) (s : Socket) : Z :=
  (readCount_ s + Z.of_nat (length (responseText req)) * 3 / 4)%Z.

(** A close that acts on the object only: whatever it does to the fields
    ([c]), the pending timers are the ones of before. *)
Definition closeWith (c : Socket -> Socket) (w : World) : World :=
  mkWorld (c (sock w)) (timers w) (trace w).

(** The request [serviceWriteQueue_] sends for head [msg] and count [wcnt]. *)
Definition writeRequestFor (s : Socket) (wcnt : Z) (msg : str) : Effect :=
  XhrGet writeRequest_ (WriteUrl (relayServer (relay_ s)) (sessionID_ s) wcnt msg).

(** The fields a write request is built from, with the head of the queue. *)
Definition writeHead (s : Socket) : option str * Z * GoogleRelay * str :=
  (hd_error (writeQueue_ s), writeCount_ s, relay_ s, sessionID_ s).

(** The one event that acknowledges a write: [onloadend] of the write
    request, done, with status 200. *)
Definition is_write_ack (ev : Event) : bool :=
  match ev with
  | LoadEnd writeRequest_ req => (readyState req =? 4)%Z && (status req =? 200)%Z
  | _ => false
  end.

(** What is asked of the missing [onRequestError]: it leaves alone the fields
    a write request is built from. *)
Definition keeps_write_path (h : Target -> M unit) : Prop :=
  forall e s,
    writeQueue_ (after (h e s)) = writeQueue_ s
    /\ writeCount_ (after (h e s)) = writeCount_ s
    /\ relay_ (after (h e s)) = relay_ s
    /\ sessionID_ (after (h e s)) = sessionID_ s.

(** ** Vocabulary of the further properties *)

(** The characters [base64ToWebSafe_] replaces, and the ones
    [webSafeToBase64_] replaces. *)
Definition is_standard_only (ch : ascii) : bool :=
  (ch =? "+")%char || (ch =? "/")%char || (ch =? "=")%char.

Definition is_webSafe_only (ch : ascii) : bool :=
  (ch =? "-")%char || (ch =? "_")%char.

(** [floor(len * 3 / 4)], the amount both counters advance by. *)
Definition countFor (len : nat) : Z := (Z.of_nat len * 3 / 4)%Z.

(** The write requests among some effects, as (count, chunk). *)
Definition writeRequests (es : list Effect) : list (Z * str) :=
  flat_map (fun e => match e with
                     | XhrGet writeRequest_ (WriteUrl _ _ wcnt msg) => [(wcnt, msg)]
                     | _ => []
                     end) es.

(** The write requests a queue asks for when every chunk is acknowledged in
    turn: each chunk with the count reached before it. *)
Fixpoint sendPlan (wcnt : Z) (queue : list str) : list (Z * str) :=
  match queue with
  | [] => []
  | msg :: rest => (wcnt, msg) :: sendPlan (wcnt + countFor (length msg))%Z rest
  end.

(** A completion [onWriteDone_] and [onReadReady_] take as a success. *)
Definition is_ok (req : Xhr) : bool :=
  (readyState req =? 4)%Z && (status req =? 200)%Z.

(** The sum of the amounts the chunks of a queue are counted for. *)
Definition countForAll (queue : list str) : Z :=
  fold_right (fun msg acc => (countFor (length msg) + acc)%Z) 0%Z queue.

(** What is handed to [onDataAvailable], and the counts the read requests
    carry, among some effects. *)
Definition deliveries (es : list Effect) : list str :=
  flat_map (fun e => match e with OnDataAvailable d => [d] | _ => [] end) es.

Definition readCounts (es : list Effect) : list Z :=
  flat_map (fun e => match e with
                     | XhrGet readRequest_ (ReadUrl _ _ rcnt) => [rcnt]
                     | _ => []
                     end) es.

(** A web-safe body put back in standard form and padded to a multiple of 4. *)
Definition padded (body : str) : str :=
  map fromWebSafeChar body ++ repeat "="%char ((4 - length body mod 4) mod 4).

(** The counts of the read requests that follow bodies received in turn. *)
Fixpoint readPlan (rcnt : Z) (bodies : list str) : list Z :=
  match bodies with
  | [] => []
  | b :: rest =>
      (rcnt + countFor (length b))%Z :: readPlan (rcnt + countFor (length b))%Z rest
  end.

(** From [s] to [s']: the session stays the one it was, the counters have
    not gone down, and a backoff that was not negative is not. *)
Definition advances (s s' : Socket) : Prop :=
  relay_ s' = relay_ s /\ host_ s' = host_ s /\ port_ s' = port_ s
  /\ sessionID_ s' = sessionID_ s
  /\ (readCount_ s <= readCount_ s')%Z
  /\ (writeCount_ s <= writeCount_ s')%Z
  /\ (0 <= backoffMS_ s -> 0 <= backoffMS_ s')%Z.

(** Two sockets that differ at most in the state of the stream. *)
Definition sameButLifecycle (s1 s2 : Socket) : Prop :=
  set_lifecycle Closed s1 = set_lifecycle Closed s2.

(** A method that does not look at the state of the stream: on two such
    sockets it completes the same way, with the same effects, and leaves two
    such sockets. *)
Definition blind {A} (m : M A) : Prop :=
  forall s1 s2,
    sameButLifecycle s1 s2 ->
    completion (m s1) = completion (m s2)
    /\ effects (m s1) = effects (m s2)
    /\ sameButLifecycle (after (m s1)) (after (m s2)).

(** ** The relay object: [init] and [requestRelayServer] *)

Module Relay.

(** [hterm.NaSSH.GoogleRelay] as the constructor leaves it, before [init] has
    run: [relayServer] is not set yet. *)
Record t := mk {
  proxy : str;
  relayServer : option str
}.

(** What [init] and [requestRelayServer] use of the page: the session
    storage, the query string and the host of [document.location], the url
    [document.location] has been assigned (the page is left for it), and the
    two strings of each [console.warn], the saved destination ([None] for
    null) and the wanted one. *)
Record Page := mkPage {
  sessionStorage : str -> option str;
  search : str;
  host : str;
  location : option str;
  warnings : list (option str * str)
}.

Definition str_eqb (a b : str) : bool :=
  if list_eq_dec ascii_dec a b then true else false.

Definition getItem (key : str) (pg : Page) : option str := sessionStorage pg key.

Definition setItem (key value : str) (pg : Page) : Page :=
  mkPage (fun k => if str_eqb k key then Some value else sessionStorage pg k)
         (search pg) (host pg) (location pg) (warnings pg).

Definition removeItem (key : str) (pg : Page) : Page :=
  mkPage (fun k => if str_eqb k key then None else sessionStorage pg k)
         (search pg) (host pg) (location pg) (warnings pg).

Definition assign (url : str) (pg : Page) : Page :=
  mkPage (sessionStorage pg) (search pg) (host pg) (Some url) (warnings pg).

Definition warn (saved : option str) (destination : str) (pg : Page) : Page :=
  mkPage (sessionStorage pg) (search pg) (host pg) (location pg)
         (warnings pg ++ [(saved, destination)]).

(** A port as a caller passes it: left out, a number (a natural number here,
    printed in decimal as JavaScript prints it below 10^21) or a string. *)
Inductive PortArg :=
| PortUndefined
| PortNumber (n : N)
| PortString (s : str).

Definition Number_toString (n : N) : str :=
  list_ascii_of_string (DecimalString.NilZero.string_of_uint (N.to_uint n)).

(** [(port || 22)] as it is printed in the destination. *)
Definition portOrDefault (port : PortArg) : str :=
  match port with
  | PortUndefined => Number_toString 22
  | PortNumber n => if (n =? 0)%N then Number_toString 22 else Number_toString n
  | PortString [] => Number_toString 22
  | PortString s => s
  end.

(** A string or null in a condition: only a non-empty string counts. *)
Definition truthy (v : option str) : bool :=
  match v with
  | Some (_ :: _) => true
  | _ => false
  end.

Definition cookieServerPattern : str :=
  lit "http://%(host):8022/cookie?ext=%encodeURIComponent(return_to)&path=html/google_relay.html".

Definition relayServerPattern : str := lit "http://%(host):8023/".

Definition googleRelayHost : str := lit "googleRelayHost".
Definition googleRelayDestination : str := lit "googleRelayDestination".
Definition googleRelayQueryString : str := lit "googleRelayQueryString".
Definition googleRelayServer : str := lit "googleRelayServer".

Section WithReplaceVars.

(** [hterm.replaceVars(pattern, vars)] is defined elsewhere in hterm; the
    variables are given as (name, value) pairs. *)
Variable replaceVars : str -> list (str * str) -> str.

Definition requestRelayServer (this : t) (destination : str) (pg : Page) : Page :=
  let pg := setItem googleRelayDestination destination pg in
  let queryString := search pg in
  let queryString := if (length queryString <? 2)%nat then [] else queryString in
  let pg := setItem googleRelayQueryString queryString pg in
  assign (replaceVars cookieServerPattern
            [(lit "host", proxy this); (lit "return_to", host pg)]) pg.

Definition destinationOf (this : t) (username hostname : str) (port : PortArg) : str :=
  username ++ lit "@" ++ hostname ++ lit ":" ++ portOrDefault port
    ++ lit "@" ++ proxy this.

Definition init (this : t) (username hostname : str) (port : PortArg) (pg : Page)
  : bool * t * Page :=
  let destination := destinationOf this username hostname port in
  let relayHost := getItem googleRelayHost pg in
  let '(this, pg) :=
    match relayHost with
    | Some (c :: h) =>
        let savedDestination := getItem googleRelayDestination pg in
        match savedDestination with
        | Some saved =>
            if str_eqb saved destination
            then (mk (proxy this)
                     (Some (replaceVars relayServerPattern [(lit "host", c :: h)])),
                  pg)
            else (this, warn savedDestination destination pg)
        | None => (this, warn savedDestination destination pg)
        end
    | _ => (this, pg)
    end in
  let pg := removeItem googleRelayServer pg in
  let pg := removeItem googleRelayDestination pg in
  if truthy (relayServer this) then (true, this, pg)
  else (false, this, requestRelayServer this destination pg).

End WithReplaceVars.

(** A variable filler that is enough to run the examples: it puts the value
    of [host] in front of the pattern. *)
Definition sampleReplaceVars (pattern : str) (vars : list (str * str)) : str :=
  match vars with
  | (_, v) :: _ => v ++ pattern
  | [] => pattern
  end.

Definition emptyPage : Page := mkPage (fun _ => None) [] (lit "ext") None [].

End Relay.

(** ** Opening: [asyncOpen_] and the handlers of its session request *)

Definition set_target_ (relay : GoogleRelay) (host : str) (port : Z) (s : Socket) : Socket :=
  mkSocket (lifecycle s) host port relay (sessionID_ s) (backoffMS_ s)
           (writeQueue_ s) (writeCount_ s) (readCount_ s).

Definition set_sessionID_ (sid : str) (s : Socket) : Socket :=
  mkSocket (lifecycle s) (host_ s) (port_ s) (relay_ s) sid (backoffMS_ s)
           (writeQueue_ s) (writeCount_ s) (readCount_ s).

(** What opening does to the outside, beside the effects of the socket
    itself: the session request
    [GET relayServer + '/proxy?host=' + host + '&port=' + port] with
    credentials, the log of a failure, and the call of [onComplete]. *)
Inductive OpenEffect :=
| SessionGet (server host : str) (port : Z)
| LogSessionFailed
| OnComplete (ok : bool)
| OfSocket (e : Effect).

(** The fields as the constructor sets them; [relay_], [host_], [port_] and
    the session id are written by [asyncOpen_] and [onReady] before they are
    read, so what stands in their place here does not matter. *)
Definition constructed (s : Socket) : Prop :=
  backoffMS_ s = 0%Z /\ writeQueue_ s = [] /\ writeCount_ s = 0%Z /\ readCount_ s = 0%Z.

Definition asyncOpen_ (relay : GoogleRelay) (host : str) (port : Z) (s : Socket)
  : Socket * list OpenEffect :=
  (set_target_ relay host port s, [SessionGet (relayServer relay) host port]).

Definition onError : list OpenEffect := [LogSessionFailed; OnComplete false].

Definition onReady (sessionRequest : Xhr) (s : Socket) : Socket * list OpenEffect :=
  if negb (readyState sessionRequest =? 4)%Z then (s, [])
  else if negb (status sessionRequest =? 200)%Z then (s, onError)
  else
    let s := set_sessionID_ (responseText sessionRequest) s in
    let r := resumeRead_ s in
    (after r, map OfSocket (effects r) ++ [OnComplete true]).

(** The fields a read request is built from. *)
Definition readHead (s : Socket) : Z * GoogleRelay * str :=
  (readCount_ s, relay_ s, sessionID_ s).

(** The one event that moves [readCount_]: [onloadend] of the read request,
    done, with status 200. *)
Definition is_read_done (ev : Event) : bool :=
  match ev with
  | LoadEnd readRequest_ req => is_ok req
  | _ => false
  end.

(** What is asked of the missing [onRequestError] on the read side. *)
Definition keeps_read_path (h : Target -> M unit) : Prop :=
  forall e s, readHead (after (h e s)) = readHead s.

(** * Properties *)

(** ** The loop of [asyncWrite], run *)

Example pushChunks_small :
  pushChunks [] (lit "abc"%string) = ([], lit "abc"%string).
Proof. reflexivity. Qed.

Example pushChunks_big :
  let '(q, d) := pushChunks [] (repeat "a"%char 2500) in
  (map (@length _) q, length d) = ([1024; 1024], 452)%nat.
Proof. vm_compute. reflexivity. Qed.

(** ** Running methods *)

Lemma bind_normal {A B} (m : M A) (k : A -> M B) s a s1 e1 :
  m s = (Normal a, s1, e1) ->
  bind m k s = (completion (k a s1), after (k a s1), e1 ++ effects (k a s1)).
Proof.
  intros H. unfold bind. rewrite H.
  destruct (k a s1) as [[r s2] e2]. reflexivity.
Qed.

Lemma bind_throw {A B} (m : M A) (k : A -> M B) s x s1 e1 :
  m s = (Throw x, s1, e1) -> bind m k s = (Throw x, s1, e1).
Proof. intros H. unfold bind. rewrite H. reflexivity. Qed.

(** ** Codec *)

Lemma replace_all_map (cls : ascii -> bool) (f : ascii -> str) (g : ascii -> ascii) (s : str) :
  (forall ch, (if cls ch then f ch else [ch]) = [g ch]) ->
  replace_all cls f s = map g s.
Proof.
  intros H. unfold replace_all.
  induction s as [|c s IH]; simpl; [reflexivity|].
  rewrite H, IH. reflexivity.
Qed.

Lemma fromWebSafe_replace s :
  replace_all (fun ch => (ch =? "-")%char || (ch =? "_")%char)
              (fun ch => if (ch =? "-")%char then ["+"%char] else ["/"%char]) s
  = map fromWebSafeChar s.
Proof.
  apply replace_all_map. intros ch. unfold fromWebSafeChar.
  destruct (ch =? "-")%char; simpl; [reflexivity|].
  destruct (ch =? "_")%char; reflexivity.
Qed.

Lemma mod4_lt (n : nat) : (n mod 4 < 4)%nat.
Proof. apply Nat.mod_upper_bound. discriminate. Qed.

Lemma webSafeToBase64__unfold (s : str) (sock : Socket) :
  webSafeToBase64_ s sock =
    match (length s mod 4)%nat with
    | 0%nat => (Normal (map fromWebSafeChar s), sock, [])
    | 2%nat => (Normal (map fromWebSafeChar s ++ ["="%char; "="%char]), sock, [])
    | 3%nat => (Normal (map fromWebSafeChar s ++ ["="%char]), sock, [])
    | _ => (Throw (InvalidWebSafeLength (length s)), set_lifecycle Closed sock, [])
    end.
Proof.
  unfold webSafeToBase64_. rewrite fromWebSafe_replace, length_map.
  destruct (length s mod 4)%nat as [|[|[|[|r]]]]; reflexivity.
Qed.

(** C8. [webSafeToBase64_] replaces every ['-'] by ['+'] and every ['_'] by
    ['/'] and then looks at the length modulo 4: remainder 0 returns the
    string as it is, 2 appends ["=="], 3 appends ["="]; the only other
    remainder, 1, closes the stream and throws instead of returning. *)
Theorem webSafeToBase64__by_remainder (s : str) (sock : Socket) :
  (length s mod 4 < 4)%nat /\
  webSafeToBase64_ s sock =
    match (length s mod 4)%nat with
    | 0%nat => (Normal (map fromWebSafeChar s), sock, [])
    | 2%nat => (Normal (map fromWebSafeChar s ++ ["="%char; "="%char]), sock, [])
    | 3%nat => (Normal (map fromWebSafeChar s ++ ["="%char]), sock, [])
    | _ => (Throw (InvalidWebSafeLength (length s)), after (close sock), [])
    end.
Proof.
  split; [apply mod4_lt | apply webSafeToBase64__unfold].
Qed.

Example webSafeToBase64__pads :
  completion (webSafeToBase64_ (lit "a-_b0_"%string) (openedSocket (mkRelay [] []) [] 22 []))
  = Normal (lit "a+/b0/=="%string).
Proof. reflexivity. Qed.

Lemma base64_char_not (c d : ascii) :
  is_base64_char d = false -> is_base64_char c = true -> (c =? d)%char = false.
Proof.
  intros Hd Hc. destruct (c =? d)%char eqn:E; [|reflexivity].
  apply Ascii.eqb_eq in E. subst d. congruence.
Qed.

Lemma base64_char_back (c : ascii) :
  is_base64_char c = true -> fromWebSafeChar (toWebSafeChar c) = c.
Proof.
  intros Hc. unfold toWebSafeChar.
  destruct (c =? "+")%char eqn:Ep.
  { apply Ascii.eqb_eq in Ep. subst c. reflexivity. }
  destruct (c =? "/")%char eqn:Es.
  { apply Ascii.eqb_eq in Es. subst c. reflexivity. }
  unfold fromWebSafeChar.
  rewrite (base64_char_not c "-"), (base64_char_not c "_") by (assumption || reflexivity).
  reflexivity.
Qed.

Lemma base64ToWebSafe__app (a b : str) :
  base64ToWebSafe_ (a ++ b) = base64ToWebSafe_ a ++ base64ToWebSafe_ b.
Proof. unfold base64ToWebSafe_, replace_all. apply flat_map_app. Qed.

Lemma base64ToWebSafe__padding (n : nat) :
  base64ToWebSafe_ (repeat "="%char n) = [].
Proof. induction n as [|n IH]; [reflexivity|exact IH]. Qed.

Lemma base64ToWebSafe__body (body : str) :
  forallb is_base64_char body = true ->
  base64ToWebSafe_ body = map toWebSafeChar body.
Proof.
  induction body as [|c body IH]; intros H; [reflexivity|].
  simpl in H. apply andb_true_iff in H. destruct H as [Hc Hb].
  change (c :: body) with ([c] ++ body).
  rewrite base64ToWebSafe__app, IH by assumption.
  simpl. f_equal.
  unfold base64ToWebSafe_, replace_all, toWebSafeChar. simpl.
  destruct (c =? "+")%char; simpl; [reflexivity|].
  destruct (c =? "/")%char; simpl; [reflexivity|].
  rewrite (base64_char_not c "=") by (assumption || reflexivity).
  reflexivity.
Qed.

Lemma fromWebSafe_toWebSafe (body : str) :
  forallb is_base64_char body = true ->
  map fromWebSafeChar (map toWebSafeChar body) = body.
Proof.
  induction body as [|c body IH]; intros H; [reflexivity|].
  simpl in H. apply andb_true_iff in H. destruct H as [Hc Hb].
  simpl. rewrite base64_char_back, IH by assumption. reflexivity.
Qed.

Lemma all_padding (x : str) :
  forallb (Ascii.eqb "=") x = true -> x = repeat "="%char (length x).
Proof.
  induction x as [|c x IH]; intros H; [reflexivity|].
  cbn [forallb] in H. apply andb_true_iff in H. destruct H as [Hc Hx].
  apply Ascii.eqb_eq in Hc. subst c. simpl. f_equal. auto.
Qed.

Lemma base64_shape_split (x : str) :
  base64_shape x = true ->
  exists body n,
    x = body ++ repeat "="%char n /\
    forallb is_base64_char body = true /\ (n <= 2)%nat.
Proof.
  induction x as [|c x IH]; intros H.
  - exists [], 0%nat. repeat split. lia.
  - cbn [base64_shape] in H.
    destruct (is_base64_char c) eqn:Hc.
    + destruct (IH H) as (body & n & Hx & Hb & Hn).
      exists (c :: body), n. subst x. repeat split; [|assumption].
      simpl. rewrite Hc. exact Hb.
    + apply andb_true_iff in H. destruct H as [Hp Hl].
      apply Nat.leb_le in Hl.
      exists [], (length (c :: x)). repeat split; [|assumption].
      apply all_padding in Hp. exact Hp.
Qed.

(** C3. On every padded standard base64 string [x], going to the web-safe
    form and back gives [x] again; the way back completes normally (no
    invalid-length error) and leaves the socket as it was. *)
Theorem webSafe_round_trip (x : str) (sock : Socket) :
  valid_base64 x = true ->
  webSafeToBase64_ (base64ToWebSafe_ x) sock = (Normal x, sock, []).
Proof.
  unfold valid_base64. intros H.
  apply andb_true_iff in H. destruct H as [Hlen Hshape].
  apply Nat.eqb_eq in Hlen.
  destruct (base64_shape_split x Hshape) as (body & n & -> & Hb & Hn).
  rewrite base64ToWebSafe__app, base64ToWebSafe__padding, app_nil_r,
    base64ToWebSafe__body by assumption.
  rewrite webSafeToBase64__unfold.
  rewrite length_map, fromWebSafe_toWebSafe by assumption.
  rewrite length_app, repeat_length in Hlen.
  assert (Hn' : n = 0%nat \/ n = 1%nat \/ n = 2%nat) by lia.
  destruct Hn' as [-> | [-> | ->]].
  - rewrite Nat.add_0_r in Hlen. rewrite Hlen. simpl. rewrite app_nil_r. reflexivity.
  - assert (E : (length body mod 4 = 3)%nat).
    { pose proof (Nat.div_mod_eq (length body) 4).
      pose proof (Nat.div_mod_eq (length body + 1) 4).
      pose proof (mod4_lt (length body)). lia. }
    rewrite E. reflexivity.
  - assert (E : (length body mod 4 = 2)%nat).
    { pose proof (Nat.div_mod_eq (length body) 4).
      pose proof (Nat.div_mod_eq (length body + 2) 4).
      pose proof (mod4_lt (length body)). lia. }
    rewrite E. reflexivity.
Qed.

(** The round trip on ["SGk+/w=="], which has all three special characters. *)
Lemma webSafe_round_trip_witness :
  valid_base64 (lit "SGk+/w=="%string) = true /\
  webSafeToBase64_ (base64ToWebSafe_ (lit "SGk+/w=="%string))
    (openedSocket (mkRelay [] []) [] 22 [])
  = (Normal (lit "SGk+/w=="%string), openedSocket (mkRelay [] []) [] 22 [], []).
Proof.
  split; [reflexivity | apply webSafe_round_trip; reflexivity].
Defined.

(** ** Backoff *)

Lemma onRequestError__unfold (e : Target) (s : Socket) :
  onRequestError_ e s =
    (Normal tt,
     set_backoffMS_ (retryDelay s * 2 + 93)%Z s,
     ConsoleLog (backoffLog e (retryDelay s))
       :: (if (1000 <=? retryDelay s)%Z then [ShowOverlay (retryDelay s + 500)%Z] else [])
       ++ [SetTimeout (retryFunction e) (retryDelay s)]).
Proof.
  unfold onRequestError_, retryDelay, bind, get, modify, emit, ret.
  destruct s as [lc h p r sid b q wc rc]. cbn [backoffMS_].
  destruct (b =? 0)%Z eqn:Eb; destruct e; cbn;
    try rewrite Eb; cbn;
    try destruct (1000 <=? b)%Z; reflexivity.
Qed.

Lemma clearBackoff__after (s : Socket) :
  after (clearBackoff_ s) = set_backoffMS_ 0%Z s.
Proof.
  unfold clearBackoff_, bind, get, modify, emit, ret, after.
  destruct (negb (backoffMS_ s =? 0)%Z); reflexivity.
Qed.

Lemma scheduled_onRequestError_ (e : Target) (s : Socket) :
  scheduled (effects (onRequestError_ e s)) = [(retryFunction e, retryDelay s)].
Proof.
  rewrite onRequestError__unfold. unfold effects, scheduled. cbn.
  destruct (1000 <=? retryDelay s)%Z; reflexivity.
Qed.

Lemma retryDelay_after_failure (e : Target) (s : Socket) :
  retryDelay (after (onRequestError_ e s)) = (retryDelay s * 2 + 93)%Z.
Proof.
  rewrite onRequestError__unfold. unfold after, retryDelay at 1. cbn.
  destruct (retryDelay s * 2 + 93 =? 0)%Z eqn:E; [|reflexivity].
  apply Z.eqb_eq in E. lia.
Qed.

(** C9. A failure handled by [onRequestError_] shows the retry overlay
    exactly when the delay it waits is at least 1000 ms: then once, for that
    delay plus 500 ms, and otherwise not at all.  The delay is the one its
    timer is started with. *)
Theorem retry_notice (e : Target) (s : Socket) :
  overlays (effects (onRequestError_ e s))
    = (if (1000 <=? retryDelay s)%Z then [(retryDelay s + 500)%Z] else [])
  /\ scheduled (effects (onRequestError_ e s)) = [(retryFunction e, retryDelay s)].
Proof.
  split; [|apply scheduled_onRequestError_].
  rewrite onRequestError__unfold. unfold effects, overlays. cbn.
  destruct (1000 <=? retryDelay s)%Z; reflexivity.
Qed.

Lemma scheduled_app (a b : list Effect) :
  scheduled (a ++ b) = scheduled a ++ scheduled b.
Proof. unfold scheduled. apply flat_map_app. Qed.

Lemma consecutiveFailures_cons (e : Target) (rest : list Target) (s : Socket) :
  consecutiveFailures (e :: rest) s =
    (completion (consecutiveFailures rest (after (onRequestError_ e s))),
     after (consecutiveFailures rest (after (onRequestError_ e s))),
     effects (onRequestError_ e s)
       ++ effects (consecutiveFailures rest (after (onRequestError_ e s)))).
Proof.
  cbn [consecutiveFailures].
  erewrite bind_normal by apply onRequestError__unfold.
  rewrite onRequestError__unfold. reflexivity.
Qed.

Lemma delays_from (es : list Target) :
  forall (s : Socket) (k : nat),
    retryDelay s = nthDelay k ->
    map snd (scheduled (effects (consecutiveFailures es s)))
    = map (fun i => nthDelay (k + i)) (seq 0 (length es)).
Proof.
  induction es as [|e rest IH]; intros s k Hk; [reflexivity|].
  rewrite consecutiveFailures_cons. unfold effects at 1. cbn [snd].
  rewrite scheduled_app, map_app, scheduled_onRequestError_.
  rewrite (IH _ (S k)).
  - cbn [length seq map app snd]. rewrite Nat.add_0_r, Hk. f_equal.
    rewrite <- seq_shift, map_map.
    apply map_ext. intros i. f_equal. lia.
  - rewrite retryDelay_after_failure, Hk. reflexivity.
Qed.

(** The delays are below 2^53, where the doubles of the source are exact, up
    to the 47th failure in a row. *)
Remark nthDelay_exact_range :
  (nthDelay 46 < 2 ^ 53 < nthDelay 47)%Z.
Proof. split; reflexivity. Qed.

(** C4. From [backoffMS_ = 0], failures in a row wait 1, 95, 283, 659,
    1411, ... milliseconds: each one starts its timer with the current
    [backoffMS_] (1 in place of 0) and leaves [backoffMS_ * 2 + 93] for the
    next; [clearBackoff_] puts [backoffMS_] back to 0. *)
Theorem backoff_sequence (es : list Target) (s : Socket) :
  backoffMS_ s = 0%Z ->
  map snd (scheduled (effects (consecutiveFailures es s)))
    = map nthDelay (seq 0 (length es))
  /\ map nthDelay (seq 0 5) = [1; 95; 283; 659; 1411]%Z
  /\ (forall e s',
        scheduled (effects (onRequestError_ e s')) = [(retryFunction e, retryDelay s')]
        /\ backoffMS_ (after (onRequestError_ e s')) = (retryDelay s' * 2 + 93)%Z)
  /\ (forall s', backoffMS_ (after (clearBackoff_ s')) = 0%Z).
Proof.
  intros H0. split; [|split; [|split]].
  - rewrite (delays_from es s 0).
    + apply map_ext. intros i. reflexivity.
    + unfold retryDelay. rewrite H0. reflexivity.
  - reflexivity.
  - intros e s'. split.
    + apply scheduled_onRequestError_.
    + rewrite onRequestError__unfold. reflexivity.
  - intros s'. rewrite clearBackoff__after. reflexivity.
Qed.

(** Five failures in a row on a fresh socket, on both paths. *)
Lemma backoff_sequence_witness :
  backoffMS_ (openedSocket (mkRelay [] []) [] 22 []) = 0%Z /\
  map snd (scheduled (effects
    (consecutiveFailures
       [readRequest_; writeRequest_; readRequest_; readRequest_; writeRequest_]
       (openedSocket (mkRelay [] []) [] 22 []))))
  = [1; 95; 283; 659; 1411]%Z.
Proof.
  split; [reflexivity|].
  exact (proj1 (backoff_sequence
    [readRequest_; writeRequest_; readRequest_; readRequest_; writeRequest_]
    (openedSocket (mkRelay [] []) [] 22 []) eq_refl)).
Defined.

(** C2, as the specification states it, fails: the socket has one
    [backoffMS_].  On a fresh socket a write failure waits 1 ms; once a read
    failure has been handled, the same write failure waits 95 ms. *)
Lemma backoff_not_independent :
  scheduled (effects (onRequestError_ writeRequest_
               (openedSocket (mkRelay [] []) [] 22 [])))
    = [(RetryServiceWriteQueue, 1%Z)]
  /\ scheduled (effects (onRequestError_ writeRequest_
                  (after (onRequestError_ readRequest_
                            (openedSocket (mkRelay [] []) [] 22 [])))))
    = [(RetryServiceWriteQueue, 95%Z)]
  /\ ~ (forall s : Socket,
          scheduled (effects (onRequestError_ writeRequest_
                                (after (onRequestError_ readRequest_ s))))
          = scheduled (effects (onRequestError_ writeRequest_ s))).
Proof.
  split; [reflexivity|]. split; [reflexivity|].
  intros H. specialize (H (openedSocket (mkRelay [] []) [] 22 [])).
  discriminate H.
Qed.

(** C2, amended. Both paths use the one [backoffMS_] of the socket: a
    failure waits the same delay and leaves the same socket whichever request
    it comes from, only the function it retries differs; the next failure, on
    either path, waits twice that delay plus 93 ms; a success on either path
    puts the shared value back to 0. *)
Theorem backoff_shared (e e' : Target) (s : Socket) :
  after (onRequestError_ e s) = after (onRequestError_ e' s)
  /\ scheduled (effects (onRequestError_ e s)) = [(retryFunction e, retryDelay s)]
  /\ scheduled (effects (onRequestError_ e' (after (onRequestError_ e s))))
     = [(retryFunction e', (retryDelay s * 2 + 93)%Z)]
  /\ retryDelay (after (clearBackoff_ (after (onRequestError_ e s)))) = 1%Z.
Proof.
  split; [|split; [|split]].
  - rewrite !onRequestError__unfold. reflexivity.
  - apply scheduled_onRequestError_.
  - rewrite scheduled_onRequestError_, retryDelay_after_failure. reflexivity.
  - rewrite clearBackoff__after. reflexivity.
Qed.

(** ** The write queue *)

Lemma maxMessageLength_value : maxMessageLength = 1024%nat.
Proof. reflexivity. Qed.

(** What the loop of [asyncWrite] leaves: the full chunks it pushed, and the
    rest of the data, which is pushed after the loop. *)
Lemma pushChunks_spec (queue : list str) (data : str) :
  exists full last,
    pushChunks queue data = (queue ++ full, last)
    /\ concat full ++ last = data
    /\ Forall (fun c => length c = maxMessageLength) full
    /\ (length last <= maxMessageLength)%nat
    /\ (0 < length data -> 0 < length last)%nat.
Proof.
  funelim (pushChunks queue data).
  - exists [], data. rewrite app_nil_r. repeat split; auto.
  - destruct H as (full & last & Hloop & Hcat & Hfull & Hlast & Hpos).
    exists (firstn maxMessageLength data :: full), last.
    rewrite Hloop, <- app_assoc. cbn [app concat]. repeat split.
    + rewrite <- app_assoc, Hcat. apply firstn_skipn.
    + constructor; [|assumption].
      rewrite length_firstn. lia.
    + assumption.
    + intros _. apply Hpos. rewrite length_skipn. lia.
Qed.

Lemma serviceWriteQueue__after (s : Socket) : after (serviceWriteQueue_ s) = s.
Proof.
  unfold serviceWriteQueue_, bind, get, after.
  destruct (writeQueue_ s); reflexivity.
Qed.

Lemma asyncWrite_after (data : str) (s : Socket) :
  data <> [] ->
  after (asyncWrite data false s) =
    set_writeQueue_
      (fst (pushChunks (writeQueue_ s) (base64ToWebSafe_ data))
         ++ [snd (pushChunks (writeQueue_ s) (base64ToWebSafe_ data))]) s.
Proof.
  intros Hne. unfold asyncWrite.
  destruct data as [|c data]; [congruence|]. cbn [length Nat.eqb].
  unfold bind at 1, get.
  destruct (pushChunks (writeQueue_ s) (base64ToWebSafe_ (c :: data))) as [queue last].
  cbn [fst snd]. unfold bind, modify.
  destruct (length (writeQueue_ s) =? 0)%nat.
  - pose proof (serviceWriteQueue__after (set_writeQueue_ (queue ++ [last]) s)) as Hs.
    unfold after in *.
    destruct (serviceWriteQueue_ (set_writeQueue_ (queue ++ [last]) s)) as [[r s'] e'].
    cbn in *. assumption.
  - reflexivity.
Qed.

Lemma ceil_div_chunks (n l : nat) :
  (0 < l <= maxMessageLength)%nat ->
  ceil_div (n * maxMessageLength + l) maxMessageLength = S n.
Proof.
  intros Hl. unfold ceil_div. rewrite maxMessageLength_value in *.
  symmetry. apply Nat.div_unique with (r := (l - 1)%nat); lia.
Qed.

(** C5. When the web-safe encoding of the data is longer than
    [maxMessageLength] (1024), [asyncWrite] appends to the write queue the
    encoding cut into ceil(L / 1024) chunks: none is longer than 1024, and put
    end to end in queue order they are the encoding. *)
Theorem asyncWrite_chunks (data : str) (s : Socket) :
  (maxMessageLength < length (base64ToWebSafe_ data))%nat ->
  maxMessageLength = 1024%nat /\
  exists chunks,
    writeQueue_ (after (asyncWrite data false s)) = writeQueue_ s ++ chunks
    /\ length chunks = ceil_div (length (base64ToWebSafe_ data)) maxMessageLength
    /\ Forall (fun c => (length c <= maxMessageLength)%nat) chunks
    /\ concat chunks = base64ToWebSafe_ data.
Proof.
  intros Hlong. split; [reflexivity|].
  assert (Hne : data <> []).
  { intros ->. cbn in Hlong. lia. }
  rewrite (asyncWrite_after s Hne).
  destruct (pushChunks_spec (writeQueue_ s) (base64ToWebSafe_ data))
    as (full & last & Hloop & Hcat & Hfull & Hlast & Hpos).
  rewrite Hloop. cbn [fst snd].
  exists (full ++ [last]). split; [|split; [|split]].
  - cbn. rewrite app_assoc. reflexivity.
  - assert (Hlen : length (base64ToWebSafe_ data)
                   = (length full * maxMessageLength + length last)%nat).
    { rewrite <- Hcat, length_app. f_equal.
      clear - Hfull. induction Hfull as [|c l Hc _ IH]; [reflexivity|].
      cbn [concat length]. rewrite length_app, Hc, IH. lia. }
    rewrite Hlen, ceil_div_chunks, length_app by lia.
    cbn. lia.
  - apply Forall_app. split.
    + eapply Forall_impl; [|exact Hfull]. cbn. intros c Hc. lia.
    + constructor; [assumption|constructor].
  - rewrite concat_app. cbn. rewrite app_nil_r. assumption.
Qed.

(** 2500 characters on an empty queue. *)
Lemma asyncWrite_chunks_witness :
  (maxMessageLength < length (base64ToWebSafe_ (repeat "A"%char 2500)))%nat /\
  exists chunks,
    writeQueue_ (after (asyncWrite (repeat "A"%char 2500) false
                          (openedSocket (mkRelay [] []) [] 22 [])))
      = writeQueue_ (openedSocket (mkRelay [] []) [] 22 []) ++ chunks
    /\ length chunks
       = ceil_div (length (base64ToWebSafe_ (repeat "A"%char 2500))) maxMessageLength
    /\ Forall (fun c => (length c <= maxMessageLength)%nat) chunks
    /\ concat chunks = base64ToWebSafe_ (repeat "A"%char 2500).
Proof.
  assert (H : (maxMessageLength < length (base64ToWebSafe_ (repeat "A"%char 2500)))%nat).
  { apply Nat.ltb_lt. vm_compute. reflexivity. }
  split; [exact H|].
  exact (proj2 (asyncWrite_chunks (repeat "A"%char 2500)
                  (openedSocket (mkRelay [] []) [] 22 []) H)).
Defined.

Example asyncWrite_three_chunks :
  map (@length ascii)
    (writeQueue_ (after (asyncWrite (repeat "A"%char 2500) false
                           (openedSocket (mkRelay [] []) [] 22 []))))
  = [1024; 1024; 452]%nat.
Proof. vm_compute. reflexivity. Qed.

(** ** The read loop *)

Section ReadPath.

Variable onRequestError : Target -> M unit.

Lemma onReadReady__gone (e : Target) (req : Xhr) (s : Socket) :
  readyState req = 4%Z -> status req = 410%Z ->
  onReadReady_ onRequestError e req s = (Normal tt, set_lifecycle Closed s, []).
Proof.
  intros Hr Hs. unfold onReadReady_. rewrite Hr, Hs. reflexivity.
Qed.

Lemma onReadReady__malformed (e : Target) (req : Xhr) (s : Socket) :
  readyState req = 4%Z -> status req = 200%Z ->
  (length (responseText req) mod 4 = 1)%nat ->
  onReadReady_ onRequestError e req s =
    (Throw (InvalidWebSafeLength (length (responseText req))),
     set_lifecycle Closed (set_readCount_ (readCount_after req s) s), []).
Proof.
  intros Hr Hs Hm. unfold onReadReady_. rewrite Hr, Hs. cbn [Z.eqb negb Pos.eqb].
  unfold bind at 1, modify. unfold bind at 1.
  rewrite webSafeToBase64__unfold, Hm. reflexivity.
Qed.

Lemma onReadReady__ok (e : Target) (req : Xhr) (s : Socket) :
  good_read req = true ->
  exists data,
    webSafeToBase64_ (responseText req) s = (Normal data, s, []) /\
    onReadReady_ onRequestError e req s =
      (Normal tt,
       set_backoffMS_ 0%Z (set_readCount_ (readCount_after req s) s),
       OnDataAvailable data
         :: (if negb (backoffMS_ s =? 0)%Z then [ConsoleLog LogRecovered] else [])
         ++ [XhrGet readRequest_
               (ReadUrl (relayServer (relay_ s)) (sessionID_ s) (readCount_after req s))]).
Proof.
  unfold good_read. intros H.
  apply andb_true_iff in H. destruct H as [H Hm].
  apply andb_true_iff in H. destruct H as [Hr Hs].
  apply Z.eqb_eq in Hr. apply Z.eqb_eq in Hs.
  apply negb_true_iff, Nat.eqb_neq in Hm.
  assert (Hdec : forall s0, exists data,
             webSafeToBase64_ (responseText req) s0 = (Normal data, s0, [])).
  { intros s0. rewrite webSafeToBase64__unfold.
    pose proof (mod4_lt (length (responseText req))) as Hlt.
    destruct (length (responseText req) mod 4)%nat as [|[|[|[|r]]]];
      try (eexists; reflexivity); lia. }
  destruct (Hdec s) as [data Hd]. exists data. split; [exact Hd|].
  destruct (Hdec (set_readCount_ (readCount_after req s) s)) as [data' Hd'].
  assert (data' = data).
  { rewrite webSafeToBase64__unfold in Hd, Hd'.
    destruct (length (responseText req) mod 4)%nat as [|[|[|[|r]]]]; congruence. }
  subst data'.
  unfold onReadReady_. rewrite Hr, Hs. cbn [Z.eqb negb Pos.eqb].
  unfold bind at 1, modify. unfold bind at 1. fold (readCount_after req s).
  rewrite Hd'.
  unfold clearBackoff_, resumeRead_, bind, get, emit, modify, ret.
  cbn [backoffMS_ set_readCount_ set_backoffMS_ app].
  destruct (negb (backoffMS_ s =? 0)%Z); reflexivity.
Qed.

End ReadPath.

(** C10. A read that completes with status 200 adds floor(length * 3 / 4) to
    [readCount_] before the body is decoded.  When the length of the body
    leaves remainder 1 modulo 4 the decoder closes the stream and throws:
    the count has moved all the same, nothing is delivered and no further
    read is sent.  Otherwise the decoded body is delivered once. *)
Theorem read_count_before_decode
    (onRequestError : Target -> M unit) (e : Target) (req : Xhr) (s : Socket) :
  readyState req = 4%Z -> status req = 200%Z ->
  readCount_ (after (onReadReady_ onRequestError e req s))
    = (readCount_ s + Z.of_nat (length (responseText req)) * 3 / 4)%Z
  /\ if (length (responseText req) mod 4 =? 1)%nat
     then onReadReady_ onRequestError e req s =
            (Throw (InvalidWebSafeLength (length (responseText req))),
             after (close (set_readCount_ (readCount_after req s) s)), [])
     else completion (onReadReady_ onRequestError e req s) = Normal tt
          /\ length (filter is_delivery (effects (onReadReady_ onRequestError e req s)))
             = 1%nat.
Proof.
  intros Hr Hs.
  destruct (length (responseText req) mod 4 =? 1)%nat eqn:Hm.
  - apply Nat.eqb_eq in Hm.
    rewrite (@onReadReady__malformed onRequestError e req s Hr Hs Hm).
    split; reflexivity.
  - assert (Hg : good_read req = true).
    { unfold good_read. rewrite Hr, Hs, Hm. reflexivity. }
    destruct (@onReadReady__ok onRequestError e req s Hg) as (data & _ & ->).
    split; [reflexivity|]. split; [reflexivity|].
    unfold effects. cbn [snd filter is_delivery].
    destruct (negb (backoffMS_ s =? 0)%Z); reflexivity.
Qed.

(** A body of five characters on a fresh socket: the count moves by 3 and
    the stream is closed. *)
Lemma read_count_before_decode_witness :
  readyState (mkXhr 4 200 (lit "QUJDR"%string)) = 4%Z /\
  status (mkXhr 4 200 (lit "QUJDR"%string)) = 200%Z /\
  onReadReady_ onRequestError_undefined readRequest_
    (mkXhr 4 200 (lit "QUJDR"%string)) (openedSocket (mkRelay [] []) [] 22 [])
  = (Throw (InvalidWebSafeLength 5),
     mkSocket Closed [] 22 (mkRelay [] []) [] 0 [] 0 3, []).
Proof.
  split; [reflexivity|]. split; [reflexivity|].
  exact (proj2 (read_count_before_decode onRequestError_undefined readRequest_
                  (mkXhr 4 200 (lit "QUJDR"%string))
                  (openedSocket (mkRelay [] []) [] 22 []) eq_refl eq_refl)).
Defined.

Section ReadLoop.

Variable onRequestError : Target -> M unit.

Lemma fireTimers_none (w : World) :
  timers w = [] -> fireTimers onRequestError w = w.
Proof. intros H. unfold fireTimers. rewrite H. reflexivity. Qed.

Lemma filter_length_app {A} (p : A -> bool) (a b : list A) :
  length (filter p (a ++ b)) = (length (filter p a) + length (filter p b))%nat.
Proof. rewrite filter_app, length_app. reflexivity. Qed.

(** One accepted read: the body is delivered and the next hanging GET goes
    out in the same callback, with no timer involved. *)
Lemma readLoop_good_step (req : Xhr) (w : World) :
  good_read req = true -> timers w = [] ->
  let w1 := fireTimers onRequestError
              (dispatch onRequestError (answer readRequest_ (Completes req)) w) in
  timers w1 = []
  /\ reads_sent w1 = S (reads_sent w)
  /\ reads_delivered w1 = S (reads_delivered w).
Proof.
  intros Hg Ht. cbn [answer dispatch]. unfold absorb.
  destruct (@onReadReady__ok onRequestError readRequest_ req (sock w) Hg)
    as (data & _ & ->).
  cbn [after effects fst snd]. cbn zeta.
  assert (Hsch : scheduled
            (OnDataAvailable data
               :: (if negb (backoffMS_ (sock w) =? 0)%Z
                   then [ConsoleLog LogRecovered] else [])
               ++ [XhrGet readRequest_
                     (ReadUrl (relayServer (relay_ (sock w))) (sessionID_ (sock w))
                        (readCount_after req (sock w)))]) = []).
  { destruct (negb (backoffMS_ (sock w) =? 0)%Z); reflexivity. }
  rewrite fireTimers_none; cbn [timers]; rewrite Hsch, Ht; [|reflexivity].
  split; [reflexivity|].
  unfold reads_sent, reads_delivered. cbn [trace].
  rewrite !filter_length_app.
  destruct (negb (backoffMS_ (sock w) =? 0)%Z); cbn; lia.
Qed.

Lemma readLoop_gone_step (gone : Xhr) (w : World) :
  readyState gone = 4%Z -> status gone = 410%Z ->
  dispatch onRequestError (LoadEnd readRequest_ gone) w
  = mkWorld (after (close (sock w))) (timers w) (trace w).
Proof.
  intros Hr Hs. cbn [dispatch]. unfold absorb.
  rewrite (@onReadReady__gone onRequestError readRequest_ gone (sock w) Hr Hs).
  cbn. rewrite !app_nil_r. reflexivity.
Qed.

Lemma readLoop_accepts (pre : list Xhr) :
  forall (tail : list Outcome) (w : World),
    forallb good_read pre = true -> timers w = [] ->
    exists w1,
      readLoop onRequestError (map Completes pre ++ tail) w
        = readLoop onRequestError tail w1
      /\ timers w1 = []
      /\ reads_sent w1 = (reads_sent w + length pre)%nat
      /\ reads_delivered w1 = (reads_delivered w + length pre)%nat.
Proof.
  induction pre as [|req pre IH]; intros tail w Hg Ht.
  - exists w. cbn. repeat split; auto.
  - cbn [forallb] in Hg. apply andb_true_iff in Hg. destruct Hg as [Hreq Hpre].
    destruct (readLoop_good_step req w Hreq Ht) as (Ht1 & Hs1 & Hd1).
    cbn [map app readLoop].
    set (w1 := fireTimers onRequestError
                 (dispatch onRequestError (answer readRequest_ (Completes req)) w)) in *.
    assert (Hlt : (reads_sent w <? reads_sent w1)%nat = true).
    { apply Nat.ltb_lt. lia. }
    rewrite Hlt.
    destruct (IH tail w1 Hpre Ht1) as (w2 & Hrun & Ht2 & Hs2 & Hd2).
    exists w2. rewrite Hrun. cbn [length]. repeat split; auto; lia.
Qed.

End ReadLoop.

(** C7, as stated, fails: it counts a delivered read for every attempt
    before the one answered 410.  Here the first attempt fails ([onerror]) and
    is retried, the second is answered 410: two read requests were sent, the
    stream is closed, and nothing was delivered.  The same happens when the
    first attempt completes with status 503 and [onRequestError] is read as
    the backoff handler. *)
Lemma gone_after_failed_attempt :
  let gone := mkXhr 4 410 [] in
  let w0 := openedWorld (mkRelay [] []) [] 22 [] in
  let w := readLoop onRequestError_undefined [Fails; Completes gone] w0 in
  let v := readLoop onRequestError_spec [Completes (mkXhr 4 503 []); Completes gone] w0 in
  nth_error [Fails; Completes gone] (2 - 1) = Some (Completes gone)
  /\ (reads_sent w = 2%nat
      /\ lifecycle (sock w) = Closed
      /\ reads_delivered w = 0%nat
      /\ reads_delivered w <> (2 - 1)%nat)
  /\ (reads_sent v = 2%nat
      /\ lifecycle (sock v) = Closed
      /\ reads_delivered v = 0%nat
      /\ reads_delivered v <> (2 - 1)%nat).
Proof.
  cbv zeta.
  split; [reflexivity|].
  split; (split; [reflexivity|]; split; [reflexivity|]; split; [reflexivity|];
          vm_compute; discriminate).
Qed.

(** C7, amended. A read answered 410 closes the stream in the same callback,
    which sends no request, starts no timer and delivers nothing.  In a run
    whose first n-1 read attempts are accepted (status 200, a body that can
    be padded) and whose n-th is answered 410, n-1 reads have been delivered
    when the loop ends, one per accepted attempt, and no read request follows
    the n-th, whatever the transport would have answered next. *)
Theorem read_loop_gone
    (onRequestError : Target -> M unit)
    (pre : list Xhr) (gone : Xhr) (post : list Outcome) (w : World) :
  timers w = [] ->
  forallb good_read pre = true ->
  readyState gone = 4%Z -> status gone = 410%Z ->
  let w' := readLoop onRequestError (map Completes pre ++ Completes gone :: post) w in
  lifecycle (sock w') = Closed
  /\ reads_delivered w' = (reads_delivered w + length pre)%nat
  /\ reads_sent w' = (reads_sent w + length pre)%nat
  /\ timers w' = []
  /\ forall w0, dispatch onRequestError (LoadEnd readRequest_ gone) w0
                = mkWorld (after (close (sock w0))) (timers w0) (trace w0).
Proof.
  intros Ht Hg Hr Hs. cbv zeta.
  destruct (readLoop_accepts onRequestError pre (Completes gone :: post) w Hg Ht)
    as (w1 & -> & Ht1 & Hs1 & Hd1).
  cbn [readLoop answer].
  rewrite (readLoop_gone_step onRequestError gone w1 Hr Hs).
  rewrite fireTimers_none by exact Ht1.
  assert (Hstop : (reads_sent w1 <?
                   reads_sent (mkWorld (after (close (sock w1))) (timers w1) (trace w1)))%nat
                  = false) by apply Nat.ltb_irrefl.
  rewrite Hstop.
  split; [reflexivity|]. split; [exact Hd1|]. split; [exact Hs1|].
  split; [exact Ht1|].
  intros w0. apply readLoop_gone_step; assumption.
Qed.

(** Two accepted reads, then 410 on the third attempt; the transport would
    have answered a fourth. *)
Lemma read_loop_gone_witness :
  let pre := [mkXhr 4 200 (lit "QUJD"%string); mkXhr 4 200 (lit "RUY"%string)] in
  let gone := mkXhr 4 410 [] in
  let post := [Completes (mkXhr 4 200 (lit "QUJD"%string))] in
  let w := openedWorld (mkRelay [] []) [] 22 [] in
  let w' := readLoop onRequestError_undefined
              (map Completes pre ++ Completes gone :: post) w in
  timers w = [] /\ forallb good_read pre = true
  /\ readyState gone = 4%Z /\ status gone = 410%Z
  /\ lifecycle (sock w') = Closed
  /\ reads_delivered w' = 2%nat
  /\ reads_sent w' = 3%nat.
Proof.
  cbv zeta.
  split; [reflexivity|]. split; [reflexivity|].
  split; [reflexivity|]. split; [reflexivity|].
  pose proof (read_loop_gone onRequestError_undefined
                [mkXhr 4 200 (lit "QUJD"%string); mkXhr 4 200 (lit "RUY"%string)]
                (mkXhr 4 410 []) [Completes (mkXhr 4 200 (lit "QUJD"%string))]
                (openedWorld (mkRelay [] []) [] 22 [])
                eq_refl eq_refl eq_refl eq_refl) as H.
  cbv zeta in H. destruct H as (Hc & Hd & Hs & _).
  split; [exact Hc|]. split; [exact Hd | exact Hs].
Defined.

(** ** The write path *)

Lemma onRequestError_undefined_keeps : keeps_write_path onRequestError_undefined.
Proof. intros e s. repeat split. Qed.

Lemma onRequestError_spec_keeps : keeps_write_path onRequestError_spec.
Proof.
  intros e s. unfold onRequestError_spec.
  rewrite onRequestError__unfold. repeat split.
Qed.

Lemma serviceWriteQueue__head (s : Socket) (msg : str) (rest : list str) :
  writeQueue_ s = msg :: rest ->
  serviceWriteQueue_ s = (Normal tt, s, [writeRequestFor s (writeCount_ s) msg]).
Proof.
  intros Hq. unfold serviceWriteQueue_, bind, get. rewrite Hq. reflexivity.
Qed.

Section WritePath.

Variable onRequestError : Target -> M unit.

Lemma onWriteDone__not_ready (e : Target) (req : Xhr) (s : Socket) :
  (readyState req =? 4)%Z = false ->
  onWriteDone_ onRequestError e req s = (Normal tt, s, []).
Proof. intros H. unfold onWriteDone_. rewrite H. reflexivity. Qed.

Lemma onWriteDone__gone (e : Target) (req : Xhr) (s : Socket) :
  (readyState req =? 4)%Z = true -> (status req =? 410)%Z = true ->
  onWriteDone_ onRequestError e req s = (Normal tt, set_lifecycle Closed s, []).
Proof. intros H1 H2. unfold onWriteDone_. rewrite H1, H2. reflexivity. Qed.

Lemma onWriteDone__other (e : Target) (req : Xhr) (s : Socket) :
  (readyState req =? 4)%Z = true -> (status req =? 410)%Z = false ->
  (status req =? 200)%Z = false ->
  onWriteDone_ onRequestError e req s = onRequestError e s.
Proof. intros H1 H2 H3. unfold onWriteDone_. rewrite H1, H2, H3. reflexivity. Qed.

Lemma onWriteDone__ok (e : Target) (req : Xhr) (s : Socket) (msg : str) (rest : list str) :
  (readyState req =? 4)%Z = true -> (status req =? 200)%Z = true ->
  writeQueue_ s = msg :: rest ->
  after (onWriteDone_ onRequestError e req s)
  = set_backoffMS_ 0%Z
      (set_writeCount_ (writeCount_ s + Z.of_nat (length msg) * 3 / 4)%Z
         (set_writeQueue_ rest s)).
Proof.
  intros H1 H2 Hq. unfold onWriteDone_. rewrite H1.
  apply Z.eqb_eq in H2. rewrite H2. cbn [Z.eqb negb Pos.eqb].
  unfold bind at 1, get. rewrite Hq.
  unfold bind at 1, modify. unfold bind at 1.
  unfold bind at 1.
  pose proof (clearBackoff__after
    (set_writeCount_ (writeCount_ (set_writeQueue_ rest s) + Z.of_nat (length msg) * 3 / 4)%Z
       (set_writeQueue_ rest s))) as Hc.
  unfold after in Hc.
  destruct (clearBackoff_ _) as [[r1 s1] e1] eqn:Hcb.
  cbn [fst snd] in Hc. subst s1.
  assert (r1 = Normal tt).
  { unfold clearBackoff_, bind, get, modify, emit, ret in Hcb.
    destruct (negb _) in Hcb; inversion Hcb; reflexivity. }
  subst r1.
  pose proof (serviceWriteQueue__after
    (set_backoffMS_ 0%Z
      (set_writeCount_ (writeCount_ (set_writeQueue_ rest s) + Z.of_nat (length msg) * 3 / 4)%Z
         (set_writeQueue_ rest s)))) as Hsv.
  unfold after in *.
  destruct (serviceWriteQueue_ _) as [[r2 s2] e2].
  cbn [fst snd] in *. subst s2. reflexivity.
Qed.

End WritePath.

Section WriteHead.

Variable onRequestError : Target -> M unit.
Hypothesis Hframe : keeps_write_path onRequestError.

Lemma onRequestError_writeHead (e : Target) (s : Socket) :
  writeHead (after (onRequestError e s)) = writeHead s.
Proof.
  destruct (Hframe e s) as (Hq & Hc & Hr & Hs).
  unfold writeHead. rewrite Hq, Hc, Hr, Hs. reflexivity.
Qed.

Lemma onReadReady__writeHead (e : Target) (req : Xhr) (s : Socket) :
  writeHead (after (onReadReady_ onRequestError e req s)) = writeHead s.
Proof.
  destruct (readyState req =? 4)%Z eqn:Er.
  2:{ unfold onReadReady_. rewrite Er. reflexivity. }
  destruct (status req =? 410)%Z eqn:E410.
  { unfold onReadReady_. rewrite Er, E410. reflexivity. }
  destruct (status req =? 200)%Z eqn:E200.
  2:{ unfold onReadReady_. rewrite Er, E410, E200. apply onRequestError_writeHead. }
  destruct (length (responseText req) mod 4 =? 1)%nat eqn:Em.
  - apply Z.eqb_eq in Er, E200. apply Nat.eqb_eq in Em.
    rewrite (@onReadReady__malformed onRequestError e req s Er E200 Em). reflexivity.
  - assert (Hg : good_read req = true).
    { unfold good_read. rewrite Er, E200, Em. reflexivity. }
    destruct (@onReadReady__ok onRequestError e req s Hg) as (data & _ & ->).
    reflexivity.
Qed.

Lemma onWriteDone__writeHead (e : Target) (req : Xhr) (s : Socket) :
  (readyState req =? 4)%Z && (status req =? 200)%Z = false ->
  writeHead (after (onWriteDone_ onRequestError e req s)) = writeHead s.
Proof.
  intros Hack.
  destruct (readyState req =? 4)%Z eqn:Er.
  2:{ rewrite onWriteDone__not_ready by assumption. reflexivity. }
  cbn [andb] in Hack.
  destruct (status req =? 410)%Z eqn:E410.
  { rewrite onWriteDone__gone by assumption. reflexivity. }
  rewrite onWriteDone__other by assumption.
  apply onRequestError_writeHead.
Qed.

Lemma asyncWrite_writeHead (data : str) (onWrite : bool) (s : Socket) (msg : str) :
  hd_error (writeQueue_ s) = Some msg ->
  writeHead (after (asyncWrite data onWrite s)) = writeHead s.
Proof.
  intros Hhd. destruct onWrite; [reflexivity|].
  destruct data as [|c data]; [reflexivity|].
  rewrite asyncWrite_after by discriminate.
  destruct (pushChunks_spec (writeQueue_ s) (base64ToWebSafe_ (c :: data)))
    as (full & last & Hloop & _).
  rewrite Hloop. cbn [fst snd]. unfold writeHead. cbn.
  destruct (writeQueue_ s) as [|m q]; [discriminate|]. reflexivity.
Qed.

Lemma retry_after (f : Retry) (s : Socket) : after (retry f s) = s.
Proof. destruct f; [reflexivity | apply serviceWriteQueue__after]. Qed.

Lemma dispatch_writeHead (ev : Event) (w : World) (msg : str) :
  is_write_ack ev = false ->
  hd_error (writeQueue_ (sock w)) = Some msg ->
  writeHead (sock (dispatch onRequestError ev w)) = writeHead (sock w).
Proof.
  intros Hack Hhd. destruct ev as [t req | t | n | data onWrite | ]; cbn [dispatch].
  - destruct t; unfold absorb; cbn [sock].
    + apply onReadReady__writeHead.
    + apply onWriteDone__writeHead. exact Hack.
  - unfold absorb. cbn [sock]. rewrite onRequestError__unfold. reflexivity.
  - destruct (nth_error (timers w) n) as [[f ms]|]; [|reflexivity].
    unfold absorb. cbn [sock]. rewrite retry_after. reflexivity.
  - unfold absorb. cbn [sock]. apply (asyncWrite_writeHead _ _ _ Hhd).
  - reflexivity.
Qed.

Lemma run_writeHead (evs : list Event) :
  forall (w : World) (msg : str),
    forallb (fun ev => negb (is_write_ack ev)) evs = true ->
    hd_error (writeQueue_ (sock w)) = Some msg ->
    writeHead (sock (run onRequestError evs w)) = writeHead (sock w).
Proof.
  induction evs as [|ev evs IH]; intros w msg Hall Hhd; [reflexivity|].
  cbn [forallb] in Hall. apply andb_true_iff in Hall. destruct Hall as [Hev Hevs].
  apply negb_true_iff in Hev.
  pose proof (dispatch_writeHead ev w Hev Hhd) as Hstep.
  cbn [run fold_left]. fold (run onRequestError evs (dispatch onRequestError ev w)).
  rewrite (IH (dispatch onRequestError ev w) msg Hevs).
  - exact Hstep.
  - unfold writeHead in Hstep. congruence.
Qed.

End WriteHead.

Lemma serviceWriteQueue__effects (s : Socket) :
  effects (serviceWriteQueue_ s) =
    match writeHead s with
    | (Some msg, wcnt, relay, sid) =>
        [XhrGet writeRequest_ (WriteUrl (relayServer relay) sid wcnt msg)]
    | _ => []
    end.
Proof.
  unfold serviceWriteQueue_, writeHead, bind, get, effects.
  destruct (writeQueue_ s); reflexivity.
Qed.

Lemma retry_same_request (s s' : Socket) (msg : str) (rest : list str) :
  writeQueue_ s = msg :: rest ->
  writeQueue_ s' = writeQueue_ s -> writeCount_ s' = writeCount_ s ->
  relay_ s' = relay_ s -> sessionID_ s' = sessionID_ s ->
  effects (retry RetryServiceWriteQueue s') = [writeRequestFor s (writeCount_ s) msg].
Proof.
  intros Hq Hq' Hc Hr Hsid. cbn [retry].
  rewrite (@serviceWriteQueue__head s' msg rest) by congruence.
  unfold effects, writeRequestFor. cbn [snd]. rewrite Hc, Hr, Hsid. reflexivity.
Qed.

(** C6. With [msg] at the head of the write queue, a write that fails for
    the moment (error, abort or timeout, or a completion whose status is
    neither 200 nor 410) leaves the queue and [writeCount_] as they were, and
    the retry sends the request that failed again: same count, same head.
    This stays so through any later events that are not the acknowledgement
    of the write.  [onWriteDone_] changes the queue or the count only for a
    completion with status 200, where it pops the head and adds
    floor(length * 3 / 4). *)
Theorem write_failure_keeps_head
    (onRequestError : Target -> M unit) (s : Socket) (msg : str) (rest : list str) :
  keeps_write_path onRequestError ->
  writeQueue_ s = msg :: rest ->
  effects (serviceWriteQueue_ s) = [writeRequestFor s (writeCount_ s) msg]
  /\ (let r := onRequestError_ writeRequest_ s in
      writeQueue_ (after r) = writeQueue_ s
      /\ writeCount_ (after r) = writeCount_ s
      /\ scheduled (effects r) = [(RetryServiceWriteQueue, retryDelay s)]
      /\ effects (retry RetryServiceWriteQueue (after r))
         = [writeRequestFor s (writeCount_ s) msg])
  /\ (forall req,
        readyState req = 4%Z -> status req <> 200%Z -> status req <> 410%Z ->
        let r := onWriteDone_ onRequestError writeRequest_ req s in
        writeQueue_ (after r) = writeQueue_ s
        /\ writeCount_ (after r) = writeCount_ s
        /\ effects (retry RetryServiceWriteQueue (after r))
           = [writeRequestFor s (writeCount_ s) msg])
  /\ (forall req,
        let r := onWriteDone_ onRequestError writeRequest_ req s in
        writeCount_ (after r) <> writeCount_ s \/ writeQueue_ (after r) <> writeQueue_ s ->
        readyState req = 4%Z /\ status req = 200%Z)
  /\ (forall req,
        readyState req = 4%Z -> status req = 200%Z ->
        let r := onWriteDone_ onRequestError writeRequest_ req s in
        writeQueue_ (after r) = rest
        /\ writeCount_ (after r)
           = (writeCount_ s + Z.of_nat (length msg) * 3 / 4)%Z)
  /\ (forall (w : World) (evs : list Event),
        sock w = s ->
        forallb (fun ev => negb (is_write_ack ev)) evs = true ->
        let s' := sock (run onRequestError evs w) in
        hd_error (writeQueue_ s') = Some msg
        /\ writeCount_ s' = writeCount_ s
        /\ effects (retry RetryServiceWriteQueue s')
           = [writeRequestFor s (writeCount_ s) msg]).
Proof.
  intros Hframe Hq.
  split; [|split; [|split; [|split; [|split]]]].
  - rewrite (serviceWriteQueue__head s Hq). reflexivity.
  - cbv zeta. rewrite onRequestError__unfold. cbn [after fst snd].
    split; [reflexivity|]. split; [reflexivity|].
    split.
    + rewrite <- onRequestError__unfold. apply scheduled_onRequestError_.
    + apply (@retry_same_request s _ msg rest); auto.
  - intros req Hr H200 H410. cbv zeta.
    rewrite onWriteDone__other
      by (rewrite ?Hr; try reflexivity; apply Z.eqb_neq; assumption).
    destruct (Hframe writeRequest_ s) as (Hq' & Hc' & Hr' & Hs').
    split; [exact Hq'|]. split; [exact Hc'|].
    apply (@retry_same_request s _ msg rest); auto.
  - intros req. cbv zeta. intros Hchg.
    destruct (readyState req =? 4)%Z eqn:Er.
    2:{ rewrite onWriteDone__not_ready in Hchg by assumption.
        cbn in Hchg. destruct Hchg; congruence. }
    destruct (status req =? 410)%Z eqn:E410.
    { rewrite onWriteDone__gone in Hchg by assumption.
      cbn in Hchg. destruct Hchg; congruence. }
    destruct (status req =? 200)%Z eqn:E200.
    { apply Z.eqb_eq in Er, E200. auto. }
    rewrite onWriteDone__other in Hchg by assumption.
    destruct (Hframe writeRequest_ s) as (Hq' & Hc' & _).
    destruct Hchg; congruence.
  - intros req Hr H200. cbv zeta.
    rewrite (@onWriteDone__ok onRequestError writeRequest_ req s msg rest)
      by (rewrite ?Hr, ?H200; auto).
    split; reflexivity.
  - intros w evs Hw Hevs. cbv zeta.
    assert (Hhd : hd_error (writeQueue_ (sock w)) = Some msg).
    { rewrite Hw, Hq. reflexivity. }
    pose proof (run_writeHead Hframe evs w Hevs Hhd) as Hrun.
    unfold writeHead in Hrun. rewrite Hw, Hq in Hrun. cbn [hd_error] in Hrun.
    injection Hrun as Hh Hc Hr Hs.
    split; [exact Hh|]. split; [exact Hc|].
    cbn [retry]. rewrite serviceWriteQueue__effects. unfold writeHead.
    rewrite Hh, Hc, Hr, Hs. reflexivity.
Qed.

(** Two chunks in the queue and a completion with status 503. *)
Lemma write_failure_keeps_head_witness :
  let s := set_writeQueue_ [lit "QUJD"%string; lit "RUY"%string]
             (openedSocket (mkRelay [] (lit "http://relay:8023/"%string)) [] 22
                (lit "sid0"%string)) in
  keeps_write_path onRequestError_spec
  /\ writeQueue_ s = [lit "QUJD"%string; lit "RUY"%string]
  /\ effects (retry RetryServiceWriteQueue
                (after (onWriteDone_ onRequestError_spec writeRequest_ (mkXhr 4 503 []) s)))
     = [writeRequestFor s 0%Z (lit "QUJD"%string)].
Proof.
  cbv zeta.
  split; [exact onRequestError_spec_keeps|]. split; [reflexivity|].
  pose proof (@write_failure_keeps_head onRequestError_spec
                (set_writeQueue_ [lit "QUJD"%string; lit "RUY"%string]
                   (openedSocket (mkRelay [] (lit "http://relay:8023/"%string)) [] 22
                      (lit "sid0"%string)))
                (lit "QUJD"%string) [lit "RUY"%string]
                onRequestError_spec_keeps eq_refl) as H.
  destruct H as (_ & _ & H & _).
  refine (proj2 (proj2 (H (mkXhr 4 503 []) eq_refl _ _))); discriminate.
Defined.

(** ** Closing with a retry pending *)

(** C1, as stated, fails: nothing cancels the timer and [resumeRead_] does
    not look at the state of the stream.  The hanging GET of an open socket
    fails, [onRequestError_] starts the retry timer, the stream is closed, the
    timer fires: the read request is sent again.  The same on the write path,
    with a chunk in the queue. *)
Lemma retry_fires_after_close :
  let relay := mkRelay [] (lit "http://relay:8023/"%string) in
  let w0 := openedWorld relay [] 22 (lit "sid0"%string) in
  let w1 := run onRequestError_undefined [Failure readRequest_; CallClose] w0 in
  let w2 := dispatch onRequestError_undefined (TimerFires 0) w1 in
  let v1 := run onRequestError_undefined
              [CallAsyncWrite (lit "QUI="%string) false; Failure writeRequest_; CallClose] w0 in
  let v2 := dispatch onRequestError_undefined (TimerFires 0) v1 in
  (timers w1 = [(RetryResumeRead, 1%Z)]
   /\ lifecycle (sock w1) = Closed
   /\ trace w2 = trace w1
                 ++ [XhrGet readRequest_
                       (ReadUrl (lit "http://relay:8023/"%string) (lit "sid0"%string) 0%Z)])
  /\ (timers v1 = [(RetryServiceWriteQueue, 1%Z)]
      /\ lifecycle (sock v1) = Closed
      /\ trace v2 = trace v1
                    ++ [XhrGet writeRequest_
                          (WriteUrl (lit "http://relay:8023/"%string) (lit "sid0"%string)
                             0%Z (lit "QUI"%string))]).
Proof. cbv zeta. repeat split. Qed.

(** C1, amended. [close] does not reach a pending retry.  Closing leaves the
    timer pending; and whatever a close does to the fields of the object
    ([c] below), when the timer fires afterwards a retry of [resumeRead_]
    sends its read request, and a retry of [serviceWriteQueue_] sends the head
    of the write queue whenever the queue has one. *)
Theorem retry_survives_close
    (onRequestError : Target -> M unit) (c : Socket -> Socket)
    (w : World) (n : nat) (f : Retry) (ms : Z) :
  nth_error (timers w) n = Some (f, ms) ->
  dispatch onRequestError CallClose w = closeWith (set_lifecycle Closed) w
  /\ nth_error (timers (closeWith c w)) n = Some (f, ms)
  /\ trace (dispatch onRequestError (TimerFires n) (closeWith c w))
     = trace w ++
       match f with
       | RetryResumeRead =>
           [XhrGet readRequest_
              (ReadUrl (relayServer (relay_ (c (sock w)))) (sessionID_ (c (sock w)))
                 (readCount_ (c (sock w))))]
       | RetryServiceWriteQueue =>
           match writeQueue_ (c (sock w)) with
           | [] => []
           | msg :: _ => [writeRequestFor (c (sock w)) (writeCount_ (c (sock w))) msg]
           end
       end.
Proof.
  intros Hn. split; [|split; [exact Hn|]].
  - cbn [dispatch]. unfold absorb, closeWith, close, modify, after, effects. cbn.
    rewrite !app_nil_r. reflexivity.
  - cbn [dispatch]. unfold closeWith. cbn [timers trace sock].
    rewrite Hn. unfold absorb. cbn [trace sock].
    f_equal. destruct f; cbn [retry].
    + reflexivity.
    + unfold serviceWriteQueue_, bind, get, effects.
      destruct (writeQueue_ (c (sock w))); reflexivity.
Qed.

(** The hanging GET has failed once; the stream is closed before the timer
    fires. *)
Lemma retry_survives_close_witness :
  let w := run onRequestError_undefined [Failure readRequest_]
             (openedWorld (mkRelay [] (lit "http://relay:8023/"%string)) [] 22
                (lit "sid0"%string)) in
  nth_error (timers w) 0 = Some (RetryResumeRead, 1%Z)
  /\ trace (dispatch onRequestError_undefined (TimerFires 0)
              (dispatch onRequestError_undefined CallClose w))
     = trace w ++ [XhrGet readRequest_
                     (ReadUrl (lit "http://relay:8023/"%string) (lit "sid0"%string) 0%Z)].
Proof.
  cbv zeta. split; [reflexivity|].
  exact (proj2 (proj2 (@retry_survives_close onRequestError_undefined
                  (set_lifecycle Closed)
                  (run onRequestError_undefined [Failure readRequest_]
                     (openedWorld (mkRelay [] (lit "http://relay:8023/"%string)) [] 22
                        (lit "sid0"%string)))
                  0 RetryResumeRead 1%Z eq_refl))).
Defined.

(** * Further properties of the codec *)

Lemma base64ToWebSafe__cons (c : ascii) (s : str) :
  base64ToWebSafe_ (c :: s) = base64ToWebSafe_ [c] ++ base64ToWebSafe_ s.
Proof. apply (base64ToWebSafe__app [c] s). Qed.

Lemma base64ToWebSafe__char (c : ascii) :
  base64ToWebSafe_ [c] = if (c =? "=")%char then [] else [toWebSafeChar c].
Proof.
  unfold base64ToWebSafe_, replace_all, toWebSafeChar. cbn [flat_map app].
  destruct (c =? "+")%char eqn:Ep.
  { apply Ascii.eqb_eq in Ep. subst c. reflexivity. }
  destruct (c =? "/")%char eqn:Es.
  { apply Ascii.eqb_eq in Es. subst c. reflexivity. }
  cbn [orb]. destruct (c =? "=")%char; reflexivity.
Qed.

Lemma toWebSafeChar_safe (c : ascii) :
  (c =? "=")%char = false -> is_standard_only (toWebSafeChar c) = false.
Proof.
  intros He. unfold toWebSafeChar.
  destruct (c =? "+")%char eqn:Ep; [reflexivity|].
  destruct (c =? "/")%char eqn:Es; [reflexivity|].
  unfold is_standard_only. rewrite Ep, Es, He. reflexivity.
Qed.

Lemma base64ToWebSafe__fixes (t : str) :
  forallb (fun ch => negb (is_standard_only ch)) t = true ->
  base64ToWebSafe_ t = t.
Proof.
  induction t as [|c t IH]; intros H; [reflexivity|].
  cbn [forallb] in H. apply andb_true_iff in H. destruct H as [Hc Ht].
  apply negb_true_iff in Hc.
  rewrite base64ToWebSafe__cons, IH by assumption.
  unfold base64ToWebSafe_, replace_all. cbn [flat_map app].
  fold (is_standard_only c). rewrite Hc. reflexivity.
Qed.

(** X1. Whatever string it is given, [base64ToWebSafe_] returns one with no
    ['+'], ['/'] or ['='] in it and no longer than the input; applying it a
    second time changes nothing. *)
Theorem base64ToWebSafe__url_safe (s : str) :
  forallb (fun ch => negb (is_standard_only ch)) (base64ToWebSafe_ s) = true
  /\ (length (base64ToWebSafe_ s) <= length s)%nat
  /\ base64ToWebSafe_ (base64ToWebSafe_ s) = base64ToWebSafe_ s.
Proof.
  assert (Hsafe : forallb (fun ch => negb (is_standard_only ch)) (base64ToWebSafe_ s) = true).
  { induction s as [|c s IH]; [reflexivity|].
    rewrite base64ToWebSafe__cons, base64ToWebSafe__char, forallb_app, IH, andb_true_r.
    destruct (c =? "=")%char eqn:He; [reflexivity|].
    cbn [forallb]. rewrite toWebSafeChar_safe by assumption. reflexivity. }
  split; [exact Hsafe|]. split.
  - clear Hsafe. induction s as [|c s IH]; [reflexivity|].
    rewrite base64ToWebSafe__cons, base64ToWebSafe__char, length_app.
    destruct (c =? "=")%char; cbn [length]; lia.
  - apply base64ToWebSafe__fixes. exact Hsafe.
Qed.

Lemma fromWebSafeChar_standard (c : ascii) :
  is_webSafe_only (fromWebSafeChar c) = false.
Proof.
  unfold fromWebSafeChar.
  destruct (c =? "-")%char eqn:Em; [reflexivity|].
  destruct (c =? "_")%char eqn:Eu; [reflexivity|].
  unfold is_webSafe_only. rewrite Em, Eu. reflexivity.
Qed.

Lemma fromWebSafe_standard (s : str) :
  forallb (fun ch => negb (is_webSafe_only ch)) (map fromWebSafeChar s) = true.
Proof.
  induction s as [|c s IH]; [reflexivity|].
  cbn [map forallb]. rewrite fromWebSafeChar_standard, IH. reflexivity.
Qed.

Lemma mod4_cases (n : nat) :
  (n mod 4 = 0 \/ n mod 4 = 1 \/ n mod 4 = 2 \/ n mod 4 = 3)%nat.
Proof. pose proof (mod4_lt n). lia. Qed.

Lemma mod4_add (n k r : nat) :
  (n mod 4 = r -> (r + k) mod 4 = 0 -> (n + k) mod 4 = 0)%nat.
Proof.
  intros Hn Hk. rewrite <- Nat.Div0.add_mod_idemp_l, Hn. exact Hk.
Qed.

(** X2. [webSafeToBase64_] throws exactly when the length of its input
    leaves remainder 1 modulo 4, and then has closed the stream.  Otherwise it
    returns a string whose length is a multiple of 4 and that has no ['-'] and
    no ['_'] in it, it leaves the socket alone and has no effect outside. *)
Theorem webSafeToBase64__result (s : str) (sock : Socket) :
  match webSafeToBase64_ s sock with
  | (Normal out, sock', eff) =>
      (length s mod 4 <> 1)%nat
      /\ (length out mod 4 = 0)%nat
      /\ forallb (fun ch => negb (is_webSafe_only ch)) out = true
      /\ sock' = sock /\ eff = []
  | (Throw x, sock', eff) =>
      (length s mod 4 = 1)%nat
      /\ x = InvalidWebSafeLength (length s)
      /\ lifecycle sock' = Closed /\ eff = []
  end.
Proof.
  rewrite webSafeToBase64__unfold.
  pose proof (mod4_lt (length s)) as Hlt.
  pose proof (fromWebSafe_standard s) as Hstd.
  destruct (length s mod 4)%nat as [|[|[|[|r]]]] eqn:Hm; try lia.
  - repeat split; auto. rewrite length_map. exact Hm.
  - repeat split; auto.
  - repeat split; auto.
    + rewrite length_app, length_map. apply (mod4_add _ 2 Hm). reflexivity.
    + rewrite forallb_app, Hstd. reflexivity.
  - repeat split; auto.
    + rewrite length_app, length_map. apply (mod4_add _ 1 Hm). reflexivity.
    + rewrite forallb_app, Hstd. reflexivity.
Qed.

Lemma base64ToWebSafe__fromWebSafe (w : str) :
  forallb (fun ch => negb (is_standard_only ch)) w = true ->
  base64ToWebSafe_ (map fromWebSafeChar w) = w.
Proof.
  induction w as [|c w IH]; intros H; [reflexivity|].
  cbn [forallb] in H. apply andb_true_iff in H. destruct H as [Hc Hw].
  apply negb_true_iff in Hc.
  cbn [map]. rewrite base64ToWebSafe__cons, IH by assumption.
  rewrite base64ToWebSafe__char. unfold fromWebSafeChar.
  destruct (c =? "-")%char eqn:Em.
  { apply Ascii.eqb_eq in Em. subst c. reflexivity. }
  destruct (c =? "_")%char eqn:Eu.
  { apply Ascii.eqb_eq in Eu. subst c. reflexivity. }
  unfold is_standard_only in Hc.
  apply orb_false_iff in Hc. destruct Hc as [Hc He].
  apply orb_false_iff in Hc. destruct Hc as [Hp Hs].
  unfold toWebSafeChar. rewrite He, Hp, Hs. reflexivity.
Qed.

(** X3. The round trip in the other direction.  A string with no ['+'],
    ['/'] or ['='] in it, of a length that does not leave remainder 1 modulo
    4, is accepted by [webSafeToBase64_], and [base64ToWebSafe_] takes the
    result back to the string. *)
Theorem webSafe_round_trip_back (w : str) (sock : Socket) :
  forallb (fun ch => negb (is_standard_only ch)) w = true ->
  (length w mod 4 <> 1)%nat ->
  exists out,
    webSafeToBase64_ w sock = (Normal out, sock, [])
    /\ base64ToWebSafe_ out = w.
Proof.
  intros Hw Hm. rewrite webSafeToBase64__unfold.
  pose proof (mod4_lt (length w)) as Hlt.
  pose proof (base64ToWebSafe__fromWebSafe w Hw) as Hback.
  destruct (length w mod 4)%nat as [|[|[|[|r]]]]; try lia.
  - eexists. split; [reflexivity|]. exact Hback.
  - eexists. split; [reflexivity|].
    pose proof (base64ToWebSafe__padding 2) as Hpad. cbn [repeat] in Hpad.
    rewrite base64ToWebSafe__app, Hback, Hpad. apply app_nil_r.
  - eexists. split; [reflexivity|].
    pose proof (base64ToWebSafe__padding 1) as Hpad. cbn [repeat] in Hpad.
    rewrite base64ToWebSafe__app, Hback, Hpad. apply app_nil_r.
Qed.

(** The web-safe string ["a-_b0_"] pads to ["a+/b0/=="] and comes back. *)
Lemma webSafe_round_trip_back_witness :
  forallb (fun ch => negb (is_standard_only ch)) (lit "a-_b0_"%string) = true
  /\ (length (lit "a-_b0_"%string) mod 4 <> 1)%nat
  /\ exists out,
       webSafeToBase64_ (lit "a-_b0_"%string) (openedSocket (mkRelay [] []) [] 22 [])
         = (Normal out, openedSocket (mkRelay [] []) [] 22 [], [])
       /\ base64ToWebSafe_ out = lit "a-_b0_"%string.
Proof.
  split; [reflexivity|].
  assert (H : (length (lit "a-_b0_"%string) mod 4 <> 1)%nat) by (cbn; lia).
  split; [exact H|].
  exact (webSafe_round_trip_back (lit "a-_b0_"%string)
           (openedSocket (mkRelay [] []) [] 22 []) eq_refl H).
Defined.

(** X4. The amount the counters advance by is exact for what the relay
    sends and receives.  For a string [webSafeToBase64_] accepts,
    floor(length * 3 / 4) is three bytes for each group of four characters of
    the padded result, less one for each ['='] that was appended. *)
Theorem countFor_exact (w : str) (sock : Socket) :
  (length w mod 4 <> 1)%nat ->
  exists out,
    completion (webSafeToBase64_ w sock) = Normal out
    /\ (length w <= length out < length w + 3)%nat
    /\ countFor (length w)
       = (3 * (Z.of_nat (length out) / 4)
          - (Z.of_nat (length out) - Z.of_nat (length w)))%Z.
Proof.
  intros Hm. rewrite webSafeToBase64__unfold. unfold countFor, completion.
  pose proof (mod4_lt (length w)) as Hlt.
  pose proof (Nat.div_mod_eq (length w) 4) as Hdiv.
  set (q := (length w / 4)%nat) in *.
  destruct (length w mod 4)%nat as [|[|[|[|r]]]] eqn:Er; try lia;
    eexists; (split; [reflexivity|]); cbn [fst];
    rewrite ?length_app, ?length_map; cbn [length];
    (split; [lia|]).
  - replace (Z.of_nat (length w)) with (4 * Z.of_nat q)%Z by lia.
    rewrite (Z.mul_comm 4), <- Z.mul_assoc, (Z.mul_comm 4 3), Z.mul_assoc.
    rewrite Z.div_mul, (Z.mul_comm (Z.of_nat q)), Z.div_mul by lia. lia.
  - replace (Z.of_nat (length w + 2)) with ((Z.of_nat q + 1) * 4)%Z by lia.
    rewrite Z.div_mul by lia.
    replace (Z.of_nat (length w) * 3)%Z with (1 * 4 + (Z.of_nat q * 3 + 1) * 4 - 2)%Z by lia.
    symmetry. apply Z.div_unique with (r := 2%Z); lia.
  - replace (Z.of_nat (length w + 1)) with ((Z.of_nat q + 1) * 4)%Z by lia.
    rewrite Z.div_mul by lia.
    symmetry. apply Z.div_unique with (r := 1%Z); lia.
Qed.

(** Six characters pad to eight: four bytes. *)
Lemma countFor_exact_witness :
  (length (lit "a-_b0_"%string) mod 4 <> 1)%nat
  /\ exists out,
       completion (webSafeToBase64_ (lit "a-_b0_"%string)
                     (openedSocket (mkRelay [] []) [] 22 [])) = Normal out
       /\ (length (lit "a-_b0_"%string) <= length out
           < length (lit "a-_b0_"%string) + 3)%nat
       /\ countFor (length (lit "a-_b0_"%string))
          = (3 * (Z.of_nat (length out) / 4)
             - (Z.of_nat (length out) - Z.of_nat (length (lit "a-_b0_"%string))))%Z.
Proof.
  assert (H : (length (lit "a-_b0_"%string) mod 4 <> 1)%nat) by (cbn; lia).
  split; [exact H|].
  exact (countFor_exact (lit "a-_b0_"%string)
           (openedSocket (mkRelay [] []) [] 22 []) H).
Defined.

(** * Further properties of the write queue *)

Lemma firstn_first_chunk (full : list str) (last enc : str) :
  concat full ++ last = enc ->
  Forall (fun c => length c = maxMessageLength) full ->
  (length last <= maxMessageLength)%nat ->
  hd_error (full ++ [last]) = Some (firstn maxMessageLength enc).
Proof.
  intros Hcat Hfull Hlast. destruct full as [|c full].
  - cbn in *. subst enc. rewrite firstn_all2 by assumption. reflexivity.
  - cbn [app hd_error]. inversion Hfull as [|? ? Hc _]; subst.
    cbn [concat]. rewrite <- !app_assoc.
    rewrite firstn_app, <- Hc, Nat.sub_diag, firstn_all. cbn [firstn].
    rewrite app_nil_r. reflexivity.
Qed.

(** What one call of [asyncWrite] with data and no callback does. *)
Lemma asyncWrite_unfold (data : str) (s : Socket) :
  data <> [] ->
  exists full last,
    pushChunks (writeQueue_ s) (base64ToWebSafe_ data) = (writeQueue_ s ++ full, last)
    /\ concat full ++ last = base64ToWebSafe_ data
    /\ Forall (fun c => length c = maxMessageLength) full
    /\ (length last <= maxMessageLength)%nat
    /\ (0 < length (base64ToWebSafe_ data) -> 0 < length last)%nat
    /\ asyncWrite data false s =
         (Normal tt,
          set_writeQueue_ (writeQueue_ s ++ full ++ [last]) s,
          match writeQueue_ s with
          | [] => [writeRequestFor s (writeCount_ s)
                     (firstn maxMessageLength (base64ToWebSafe_ data))]
          | _ :: _ => []
          end).
Proof.
  intros Hne.
  destruct (pushChunks_spec (writeQueue_ s) (base64ToWebSafe_ data))
    as (full & last & Hloop & Hcat & Hfull & Hlast & Hpos).
  exists full, last. repeat (split; [assumption|]).
  unfold asyncWrite. destruct data as [|c data]; [congruence|].
  cbn [length Nat.eqb]. unfold bind at 1, get. rewrite Hloop.
  unfold bind, modify. rewrite <- app_assoc.
  destruct (writeQueue_ s) as [|m q] eqn:Hq.
  - cbn [length Nat.eqb app].
    unfold serviceWriteQueue_, bind, get. cbn [writeQueue_ set_writeQueue_].
    pose proof (@firstn_first_chunk full last _ Hcat Hfull Hlast) as Hhd.
    destruct (full ++ [last]) as [|m' q'] eqn:Hnew; [discriminate|].
    cbn in Hhd. injection Hhd as ->.
    unfold emit, writeRequestFor. cbn. reflexivity.
  - reflexivity.
Qed.

(** X5. [asyncWrite] with data and no callback only appends to the write
    queue: what was queued stays in front, in order.  It appends the
    web-safe encoding cut into pieces of exactly [maxMessageLength]
    characters followed by one last piece of at most that many; the last
    piece is empty exactly when the encoding is, so data made of ['='] only
    queues one empty chunk. *)
Theorem asyncWrite_appends (data : str) (s : Socket) :
  data <> [] ->
  exists full last,
    writeQueue_ (after (asyncWrite data false s)) = writeQueue_ s ++ full ++ [last]
    /\ concat full ++ last = base64ToWebSafe_ data
    /\ Forall (fun c => length c = maxMessageLength) full
    /\ (length last <= maxMessageLength)%nat
    /\ (last = [] <-> base64ToWebSafe_ data = []).
Proof.
  intros Hne.
  destruct (asyncWrite_unfold s Hne)
    as (full & last & Hloop & Hcat & Hfull & Hlast & Hpos & ->).
  exists full, last. split; [reflexivity|].
  split; [assumption|]. split; [assumption|]. split; [assumption|].
  split.
  - intros ->. destruct (base64ToWebSafe_ data) as [|c enc]; [reflexivity|].
    cbn in Hpos. specialize (Hpos ltac:(lia)). lia.
  - intros He. rewrite He in Hcat.
    apply app_eq_nil in Hcat. tauto.
Qed.

(** The padding ["=="] alone on an empty queue. *)
Lemma asyncWrite_appends_witness :
  lit "=="%string <> []
  /\ exists full last,
       writeQueue_ (after (asyncWrite (lit "=="%string) false
                             (openedSocket (mkRelay [] []) [] 22 [])))
         = writeQueue_ (openedSocket (mkRelay [] []) [] 22 []) ++ full ++ [last]
       /\ concat full ++ last = base64ToWebSafe_ (lit "=="%string)
       /\ Forall (fun c => length c = maxMessageLength) full
       /\ (length last <= maxMessageLength)%nat
       /\ (last = [] <-> base64ToWebSafe_ (lit "=="%string) = []).
Proof.
  assert (Hne : lit "=="%string <> []) by discriminate.
  split; [exact Hne|].
  exact (@asyncWrite_appends (lit "=="%string)
           (openedSocket (mkRelay [] []) [] 22 []) Hne).
Defined.

Example asyncWrite_padding_only :
  asyncWrite (lit "=="%string) false
    (openedSocket (mkRelay [] (lit "r/"%string)) [] 22 (lit "sid0"%string))
  = (Normal tt,
     set_writeQueue_ [[]]
       (openedSocket (mkRelay [] (lit "r/"%string)) [] 22 (lit "sid0"%string)),
     [XhrGet writeRequest_ (WriteUrl (lit "r/"%string) (lit "sid0"%string) 0 [])]).
Proof. reflexivity. Qed.

(** X6. [asyncWrite] sends at most one request.  With a callback it throws
    and with empty data it returns, in both cases touching nothing.
    Otherwise it completes, and it sends a write request exactly when the
    queue was empty before the call: the first [maxMessageLength] characters
    of the encoding, with the current [writeCount_].  With something already
    queued it sends nothing. *)
Theorem asyncWrite_sends (data : str) (s : Socket) :
  asyncWrite data true s = (Throw WriteCallbackNotImplemented, s, [])
  /\ asyncWrite [] false s = (Normal tt, s, [])
  /\ (data = [] \/
      completion (asyncWrite data false s) = Normal tt
      /\ effects (asyncWrite data false s) =
           match writeQueue_ s with
           | [] => [writeRequestFor s (writeCount_ s)
                      (firstn maxMessageLength (base64ToWebSafe_ data))]
           | _ :: _ => []
           end).
Proof.
  split; [reflexivity|]. split; [reflexivity|].
  destruct data as [|c data]; [left; reflexivity|right].
  destruct (@asyncWrite_unfold (c :: data) s ltac:(discriminate))
    as (full & last & _ & _ & _ & _ & _ & ->).
  split; reflexivity.
Qed.

Lemma countForAll_cons (m : str) (q : list str) :
  countForAll (m :: q) = (countFor (length m) + countForAll q)%Z.
Proof. reflexivity. Qed.

Section Drain.

Variable onRequestError : Target -> M unit.

(** What [onWriteDone_] does with an acknowledgement. *)
Lemma onWriteDone__ack (e : Target) (req : Xhr) (s : Socket) (msg : str) (rest : list str) :
  is_ok req = true ->
  writeQueue_ s = msg :: rest ->
  onWriteDone_ onRequestError e req s =
    (Normal tt,
     set_backoffMS_ 0%Z
       (set_writeCount_ (writeCount_ s + countFor (length msg))%Z
          (set_writeQueue_ rest s)),
     (if negb (backoffMS_ s =? 0)%Z then [ConsoleLog LogRecovered] else [])
       ++ match rest with
          | [] => []
          | next :: _ =>
              [writeRequestFor s (writeCount_ s + countFor (length msg))%Z next]
          end).
Proof.
  unfold is_ok. intros Hok Hq.
  apply andb_true_iff in Hok. destruct Hok as [Hr Hs].
  apply Z.eqb_eq in Hs.
  unfold onWriteDone_. rewrite Hr, Hs. cbn [Z.eqb negb Pos.eqb].
  unfold bind at 1, get. rewrite Hq.
  unfold clearBackoff_, serviceWriteQueue_, bind, get, modify, emit, ret, countFor,
    writeRequestFor.
  cbn [backoffMS_ writeQueue_ writeCount_ relay_ sessionID_
       set_writeQueue_ set_writeCount_ set_backoffMS_ app].
  destruct (negb (backoffMS_ s =? 0)%Z); destruct rest; reflexivity.
Qed.

Lemma writeRequests_app (a b : list Effect) :
  writeRequests (a ++ b) = writeRequests a ++ writeRequests b.
Proof. unfold writeRequests. apply flat_map_app. Qed.

Lemma dispatch_ack (req : Xhr) (w : World) (msg : str) (rest : list str) :
  is_ok req = true ->
  writeQueue_ (sock w) = msg :: rest ->
  let w1 := dispatch onRequestError (LoadEnd writeRequest_ req) w in
  writeQueue_ (sock w1) = rest
  /\ writeCount_ (sock w1) = (writeCount_ (sock w) + countFor (length msg))%Z
  /\ backoffMS_ (sock w1) = 0%Z
  /\ timers w1 = timers w
  /\ writeRequests (trace w1)
     = writeRequests (trace w)
       ++ match rest with
          | [] => []
          | next :: _ => [((writeCount_ (sock w) + countFor (length msg))%Z, next)]
          end.
Proof.
  intros Hok Hq. cbn [dispatch]. unfold absorb.
  rewrite (@onWriteDone__ack writeRequest_ req (sock w) msg rest Hok Hq).
  cbn [after effects fst snd sock timers trace]. cbv zeta.
  split; [reflexivity|]. split; [reflexivity|]. split; [reflexivity|].
  split.
  - destruct (negb (backoffMS_ (sock w) =? 0)%Z); destruct rest; cbn;
      apply app_nil_r.
  - rewrite writeRequests_app. f_equal.
    destruct (negb (backoffMS_ (sock w) =? 0)%Z); destruct rest; reflexivity.
Qed.

(** With the head of the queue in flight, one acknowledgement per queued
    chunk empties the queue. *)
Lemma drain_queue (acks : list Xhr) :
  forall (w : World) (msg : str) (rest : list str),
    forallb is_ok acks = true ->
    writeQueue_ (sock w) = msg :: rest ->
    length acks = S (length rest) ->
    let w2 := run onRequestError (map (LoadEnd writeRequest_) acks) w in
    writeQueue_ (sock w2) = []
    /\ writeCount_ (sock w2) = (writeCount_ (sock w) + countForAll (msg :: rest))%Z
    /\ backoffMS_ (sock w2) = 0%Z
    /\ timers w2 = timers w
    /\ writeRequests (trace w2)
       = writeRequests (trace w)
         ++ sendPlan (writeCount_ (sock w) + countFor (length msg))%Z rest.
Proof.
  induction acks as [|req acks IH]; intros w msg rest Hok Hq Hlen; [discriminate|].
  cbn [forallb] in Hok. apply andb_true_iff in Hok. destruct Hok as [Hreq Hacks].
  destruct (dispatch_ack req w Hreq Hq) as (Hq1 & Hc1 & Hb1 & Ht1 & Htr1).
  cbn [map run fold_left].
  fold (run onRequestError (map (LoadEnd writeRequest_) acks)
          (dispatch onRequestError (LoadEnd writeRequest_ req) w)).
  set (w1 := dispatch onRequestError (LoadEnd writeRequest_ req) w) in *.
  destruct rest as [|next rest].
  - destruct acks; [|discriminate]. cbn [map run fold_left sendPlan].
    rewrite Hq1, Hc1, Hb1, Ht1, Htr1.
    split; [reflexivity|]. split.
    { rewrite countForAll_cons. cbn. lia. }
    split; [reflexivity|]. split; reflexivity.
  - cbn [length] in Hlen.
    destruct (IH w1 next rest Hacks Hq1 ltac:(lia)) as (Hq2 & Hc2 & Hb2 & Ht2 & Htr2).
    cbv zeta. rewrite Hq2, Hc2, Hb2, Ht2, Htr2, Hc1, Htr1, Ht1.
    split; [reflexivity|]. split.
    { rewrite (countForAll_cons msg). lia. }
    split; [reflexivity|]. split; [reflexivity|].
    rewrite <- app_assoc. reflexivity.
Qed.

End Drain.

Lemma countForAll_app (a b : list str) :
  countForAll (a ++ b) = (countForAll a + countForAll b)%Z.
Proof.
  induction a as [|m a IH]; [reflexivity|].
  cbn [app]. rewrite !countForAll_cons, IH. lia.
Qed.

(** Cutting at [maxMessageLength], a multiple of 4, loses nothing in the
    count. *)
Lemma countForAll_chunks (full : list str) (last : str) :
  Forall (fun c => length c = maxMessageLength) full ->
  countForAll (full ++ [last]) = countFor (length (concat full ++ last)).
Proof.
  intros Hfull. induction Hfull as [|c full Hc _ IH].
  - cbn. unfold countFor. lia.
  - cbn [app concat]. rewrite countForAll_cons.
    rewrite IH, <- app_assoc, (length_app c), Hc. unfold countFor.
    rewrite maxMessageLength_value, Nat2Z.inj_add.
    change (Z.of_nat 1024) with (1024)%Z.
    replace ((1024 + Z.of_nat (length (concat full ++ last))) * 3)%Z
      with (768 * 4 + Z.of_nat (length (concat full ++ last)) * 3)%Z by lia.
    rewrite Z.div_add_l by lia. reflexivity.
Qed.

Lemma sendPlan_chunks (wcnt : Z) (queue : list str) :
  map snd (sendPlan wcnt queue) = queue.
Proof.
  revert wcnt. induction queue as [|m q IH]; intros wcnt; [reflexivity|].
  cbn [sendPlan map snd]. rewrite IH. reflexivity.
Qed.

(** X7. One write, start to end.  On an empty queue, [asyncWrite] followed by
    one acknowledgement (a completion with status 200) per chunk sends the
    chunks one at a time, in order, each with the count reached by the chunks
    before it; put end to end the chunks sent are the web-safe encoding of
    the data.  At the end the queue is empty again, [writeCount_] has grown by
    floor(L * 3 / 4) for the length L of the whole encoding, and the backoff
    is cleared. *)
Theorem write_drains
    (onRequestError : Target -> M unit) (data : str) (acks : list Xhr) (w : World) :
  data <> [] ->
  writeQueue_ (sock w) = [] ->
  forallb is_ok acks = true ->
  let w1 := dispatch onRequestError (CallAsyncWrite data false) w in
  length acks = length (writeQueue_ (sock w1)) ->
  let w2 := run onRequestError (map (LoadEnd writeRequest_) acks) w1 in
  writeQueue_ (sock w2) = []
  /\ writeCount_ (sock w2)
     = (writeCount_ (sock w) + countFor (length (base64ToWebSafe_ data)))%Z
  /\ backoffMS_ (sock w2) = 0%Z
  /\ writeRequests (trace w2)
     = writeRequests (trace w) ++ sendPlan (writeCount_ (sock w)) (writeQueue_ (sock w1))
  /\ concat (map snd (sendPlan (writeCount_ (sock w)) (writeQueue_ (sock w1))))
     = base64ToWebSafe_ data.
Proof.
  intros Hne Hq Hok. cbv zeta.
  destruct (@asyncWrite_unfold data (sock w) Hne)
    as (full & last & _ & Hcat & Hfull & Hlast & _ & Hrun).
  rewrite Hq in Hrun. cbn [app] in Hrun.
  cbn [dispatch]. unfold absorb. rewrite Hrun.
  cbn [after effects fst snd sock writeQueue_ set_writeQueue_].
  intros Hlen.
  pose proof (@firstn_first_chunk full last _ Hcat Hfull Hlast) as Hhd.
  destruct (full ++ [last]) as [|msg rest] eqn:Hnew; [discriminate|].
  cbn in Hhd. injection Hhd as Hmsg.
  set (w1 := mkWorld _ _ _).
  assert (Hq1 : writeQueue_ (sock w1) = msg :: rest) by reflexivity.
  destruct (drain_queue onRequestError acks w1 Hok Hq1 Hlen)
    as (Hq2 & Hc2 & Hb2 & _ & Htr2).
  cbv zeta in *. rewrite Hq2, Hc2, Hb2, Htr2.
  split; [reflexivity|]. split.
  { subst w1. cbn [sock writeCount_ set_writeQueue_]. f_equal.
    rewrite <- Hnew, countForAll_chunks, Hcat by assumption. reflexivity. }
  split; [reflexivity|]. split.
  { subst w1. cbn [trace sock writeCount_ set_writeQueue_].
    rewrite writeRequests_app, <- app_assoc. f_equal.
    cbn [sendPlan]. rewrite <- Hmsg. reflexivity. }
  rewrite sendPlan_chunks, <- Hnew, concat_app. cbn. rewrite app_nil_r. exact Hcat.
Qed.

(** 2500 characters on a fresh socket: three chunks, three acknowledgements,
    1875 bytes counted. *)
Lemma write_drains_witness :
  let data := repeat "A"%char 2500 in
  let acks := repeat (mkXhr 4 200 []) 3 in
  let w := openedWorld (mkRelay [] []) [] 22 [] in
  let w1 := dispatch onRequestError_undefined (CallAsyncWrite data false) w in
  let w2 := run onRequestError_undefined (map (LoadEnd writeRequest_) acks) w1 in
  data <> [] /\ writeQueue_ (sock w) = [] /\ forallb is_ok acks = true
  /\ length acks = length (writeQueue_ (sock w1))
  /\ writeQueue_ (sock w2) = []
  /\ writeCount_ (sock w2) = 1875%Z
  /\ map fst (writeRequests (trace w2)) = [0; 768; 1536]%Z.
Proof.
  cbv zeta.
  assert (Hne : repeat "A"%char 2500 <> []) by discriminate.
  assert (Hlen : length (repeat (mkXhr 4 200 []) 3)
                 = length (writeQueue_ (sock (dispatch onRequestError_undefined
                                                (CallAsyncWrite (repeat "A"%char 2500) false)
                                                (openedWorld (mkRelay [] []) [] 22 [])))))
    by (vm_compute; reflexivity).
  split; [exact Hne|]. split; [reflexivity|]. split; [reflexivity|].
  split; [exact Hlen|].
  pose proof (@write_drains onRequestError_undefined (repeat "A"%char 2500)
                (repeat (mkXhr 4 200 []) 3) (openedWorld (mkRelay [] []) [] 22 [])
                Hne eq_refl eq_refl Hlen) as H.
  cbv zeta in H. destruct H as (Hq & Hc & _ & Htr & _).
  split; [exact Hq|]. split.
  - rewrite Hc. vm_compute. reflexivity.
  - rewrite Htr. vm_compute. reflexivity.
Defined.

(** * Further properties of the read loop *)

Lemma webSafeToBase64__padded (body : str) (s : Socket) :
  (length body mod 4 <> 1)%nat ->
  webSafeToBase64_ body s = (Normal (padded body), s, []).
Proof.
  intros Hm. rewrite webSafeToBase64__unfold. unfold padded.
  pose proof (mod4_lt (length body)) as Hlt.
  destruct (length body mod 4)%nat as [|[|[|[|r]]]]; try lia.
  - cbn [repeat Nat.sub Nat.modulo]. rewrite app_nil_r. reflexivity.
  - reflexivity.
  - reflexivity.
Qed.

Lemma deliveries_app (a b : list Effect) :
  deliveries (a ++ b) = deliveries a ++ deliveries b.
Proof. unfold deliveries. apply flat_map_app. Qed.

Lemma readCounts_app (a b : list Effect) :
  readCounts (a ++ b) = readCounts a ++ readCounts b.
Proof. unfold readCounts. apply flat_map_app. Qed.

Section ReadOrder.

Variable onRequestError : Target -> M unit.

Lemma readLoop_good_step_trace (req : Xhr) (w : World) :
  good_read req = true -> timers w = [] ->
  let w1 := fireTimers onRequestError
              (dispatch onRequestError (answer readRequest_ (Completes req)) w) in
  timers w1 = []
  /\ reads_sent w1 = S (reads_sent w)
  /\ readCount_ (sock w1) = (readCount_ (sock w) + countFor (length (responseText req)))%Z
  /\ backoffMS_ (sock w1) = 0%Z
  /\ deliveries (trace w1) = deliveries (trace w) ++ [padded (responseText req)]
  /\ readCounts (trace w1)
     = readCounts (trace w)
       ++ [(readCount_ (sock w) + countFor (length (responseText req)))%Z].
Proof.
  intros Hg Ht.
  destruct (readLoop_good_step onRequestError req w Hg Ht) as (Ht1 & Hs1 & _).
  split; [exact Ht1|]. split; [exact Hs1|].
  cbn [answer dispatch]. unfold absorb.
  destruct (@onReadReady__ok onRequestError readRequest_ req (sock w) Hg)
    as (data & Hdec & Hrun).
  assert (Hm : (length (responseText req) mod 4 <> 1)%nat).
  { unfold good_read in Hg. apply andb_true_iff in Hg. destruct Hg as [_ Hg].
    apply negb_true_iff, Nat.eqb_neq in Hg. exact Hg. }
  rewrite webSafeToBase64__padded in Hdec by exact Hm.
  injection Hdec as <-.
  rewrite Hrun. cbn [after effects fst snd].
  rewrite fireTimers_none.
  2:{ cbn [timers]. rewrite Ht.
      destruct (negb (backoffMS_ (sock w) =? 0)%Z); reflexivity. }
  cbn [sock trace]. unfold readCount_after, countFor.
  split; [reflexivity|]. split; [reflexivity|].
  rewrite deliveries_app, readCounts_app.
  split; f_equal; destruct (negb (backoffMS_ (sock w) =? 0)%Z); reflexivity.
Qed.

Lemma readLoop_accepts_trace (pre : list Xhr) :
  forall (w : World),
    forallb good_read pre = true -> timers w = [] ->
    let w1 := readLoop onRequestError (map Completes pre) w in
    timers w1 = []
    /\ readCount_ (sock w1)
       = (readCount_ (sock w) + countForAll (map responseText pre))%Z
    /\ deliveries (trace w1)
       = deliveries (trace w) ++ map (fun req => padded (responseText req)) pre
    /\ readCounts (trace w1)
       = readCounts (trace w) ++ readPlan (readCount_ (sock w)) (map responseText pre).
Proof.
  induction pre as [|req pre IH]; intros w Hg Ht.
  - cbn. rewrite !app_nil_r. repeat split; auto. lia.
  - cbn [forallb] in Hg. apply andb_true_iff in Hg. destruct Hg as [Hreq Hpre].
    destruct (readLoop_good_step_trace req w Hreq Ht)
      as (Ht1 & Hs1 & Hc1 & _ & Hd1 & Hr1).
    cbn [map readLoop].
    set (w1 := fireTimers onRequestError
                 (dispatch onRequestError (answer readRequest_ (Completes req)) w)) in *.
    assert (Hlt : (reads_sent w <? reads_sent w1)%nat = true).
    { apply Nat.ltb_lt. lia. }
    rewrite Hlt.
    destruct (IH w1 Hpre Ht1) as (Ht2 & Hc2 & Hd2 & Hr2).
    cbv zeta in *. rewrite Hc2, Hd2, Hr2, Hc1, Hd1, Hr1.
    split; [exact Ht2|]. split.
    { rewrite countForAll_cons. lia. }
    split; rewrite <- app_assoc; reflexivity.
Qed.

End ReadOrder.

(** X8. While the relay answers each hanging GET with status 200 and a body
    that can be padded, the loop hands the bodies to [onDataAvailable] in the
    order received, each put back in standard form and padded, one delivery
    per body; every next read request carries the count reached so far, the
    sum of floor(length * 3 / 4) over the bodies already received. *)
Theorem read_loop_in_order
    (onRequestError : Target -> M unit) (pre : list Xhr) (w : World) :
  timers w = [] ->
  forallb good_read pre = true ->
  let w' := readLoop onRequestError (map Completes pre) w in
  deliveries (trace w')
    = deliveries (trace w) ++ map (fun req => padded (responseText req)) pre
  /\ readCounts (trace w')
     = readCounts (trace w) ++ readPlan (readCount_ (sock w)) (map responseText pre)
  /\ readCount_ (sock w')
     = (readCount_ (sock w) + countForAll (map responseText pre))%Z.
Proof.
  intros Ht Hg.
  destruct (readLoop_accepts_trace onRequestError pre w Hg Ht) as (_ & Hc & Hd & Hr).
  cbv zeta in *. split; [exact Hd|]. split; [exact Hr | exact Hc].
Qed.

(** Two bodies, of four and of three characters. *)
Lemma read_loop_in_order_witness :
  let pre := [mkXhr 4 200 (lit "QU-D"%string); mkXhr 4 200 (lit "R_Y"%string)] in
  let w := openedWorld (mkRelay [] []) [] 22 [] in
  let w' := readLoop onRequestError_undefined (map Completes pre) w in
  timers w = [] /\ forallb good_read pre = true
  /\ deliveries (trace w') = [lit "QU+D"%string; lit "R/Y="%string]
  /\ readCounts (trace w') = [0; 3; 5]%Z.
Proof.
  cbv zeta. split; [reflexivity|]. split; [reflexivity|].
  pose proof (@read_loop_in_order onRequestError_undefined
                [mkXhr 4 200 (lit "QU-D"%string); mkXhr 4 200 (lit "R_Y"%string)]
                (openedWorld (mkRelay [] []) [] 22 []) eq_refl eq_refl) as H.
  cbv zeta in H. destruct H as (Hd & Hr & _).
  split; [exact Hd | exact Hr].
Defined.

(** * Further properties of the backoff *)

Lemma nthDelay_closed (k : nat) : nthDelay k = (94 * 2 ^ Z.of_nat k - 93)%Z.
Proof.
  induction k as [|k IH]; [reflexivity|].
  cbn [nthDelay]. rewrite IH, Nat2Z.inj_succ, Z.pow_succ_r by lia. lia.
Qed.

Lemma nthDelay_lower (k : nat) : (4 <= k)%nat -> (1000 <=? nthDelay k)%Z = true.
Proof.
  intros Hk. apply Z.leb_le.
  induction Hk as [|k Hk IH]; [vm_compute; discriminate|].
  cbn [nthDelay]. lia.
Qed.

Lemma nthDelay_upper (k : nat) : (k < 4)%nat -> (1000 <=? nthDelay k)%Z = false.
Proof.
  intros Hk. destruct k as [|[|[|[|k]]]]; try reflexivity. lia.
Qed.

Lemma consecutiveFailures_after (es : list Target) :
  forall (s : Socket) (k : nat),
    retryDelay s = nthDelay k -> es <> [] ->
    after (consecutiveFailures es s) = set_backoffMS_ (nthDelay (k + length es)) s.
Proof.
  induction es as [|e rest IH]; intros s k Hk Hne; [congruence|].
  rewrite consecutiveFailures_cons. unfold after at 1. cbn [fst snd].
  destruct rest as [|e' rest].
  - cbn [consecutiveFailures length]. unfold ret, after. cbn [fst snd].
    rewrite onRequestError__unfold. cbn [fst snd].
    replace (k + 1)%nat with (S k) by lia. cbn [nthDelay]. rewrite Hk. reflexivity.
  - rewrite (IH _ (S k)).
    + rewrite onRequestError__unfold. unfold after. cbn [fst snd length].
      replace (S k + S (length rest))%nat with (k + S (S (length rest)))%nat by lia.
      destruct s. reflexivity.
    + rewrite retryDelay_after_failure, Hk. reflexivity.
    + discriminate.
Qed.

Lemma overlays_app (a b : list Effect) :
  overlays (a ++ b) = overlays a ++ overlays b.
Proof. unfold overlays. apply flat_map_app. Qed.

Lemma overlays_onRequestError_ (e : Target) (s : Socket) :
  overlays (effects (onRequestError_ e s))
  = if (1000 <=? retryDelay s)%Z then [(retryDelay s + 500)%Z] else [].
Proof.
  rewrite onRequestError__unfold. unfold effects, overlays. cbn.
  destruct (1000 <=? retryDelay s)%Z; reflexivity.
Qed.

Lemma overlays_from (es : list Target) :
  forall (s : Socket) (k : nat),
    retryDelay s = nthDelay k ->
    overlays (effects (consecutiveFailures es s))
    = map (fun i => (nthDelay i + 500)%Z)
          (filter (fun i => (1000 <=? nthDelay i)%Z) (seq k (length es))).
Proof.
  induction es as [|e rest IH]; intros s k Hk; [reflexivity|].
  rewrite consecutiveFailures_cons. unfold effects at 1. cbn [snd].
  rewrite overlays_app, (IH _ (S k)).
  2:{ rewrite retryDelay_after_failure, Hk. reflexivity. }
  rewrite overlays_onRequestError_, Hk.
  cbn [length seq filter].
  destruct (1000 <=? nthDelay k)%Z; reflexivity.
Qed.

Lemma filter_seq_all (p : nat -> bool) (n : nat) :
  forall k, (forall i, (k <= i)%nat -> p i = true) -> filter p (seq k n) = seq k n.
Proof.
  induction n as [|n IH]; intros k H; [reflexivity|].
  cbn [seq filter]. rewrite (H k) by lia. f_equal.
  apply IH. intros i Hi. apply H. lia.
Qed.

Lemma filter_seq_none (p : nat -> bool) (n : nat) :
  forall k, (forall i, (i < k + n)%nat -> p i = false) -> filter p (seq k n) = [].
Proof.
  induction n as [|n IH]; intros k H; [reflexivity|].
  cbn [seq filter]. rewrite (H k) by lia.
  apply IH. intros i Hi. apply H. lia.
Qed.

Lemma loud_failures (n : nat) :
  filter (fun i => (1000 <=? nthDelay i)%Z) (seq 0 n) = seq 4 (n - 4).
Proof.
  destruct (Nat.le_gt_cases n 4) as [Hn | Hn].
  - replace (n - 4)%nat with 0%nat by lia.
    apply filter_seq_none. intros i Hi. apply nthDelay_upper. lia.
  - replace n with (4 + (n - 4))%nat at 1 by lia.
    rewrite seq_app, filter_app.
    rewrite (filter_seq_none _ 4 0) by (intros i Hi; apply nthDelay_upper; lia).
    apply filter_seq_all. intros i Hi. apply nthDelay_lower. lia.
Qed.

(** X9. Failures in a row on a socket whose backoff is clear: after k of
    them, k > 0, [backoffMS_] is 94 * 2^k - 93.  The first four are silent;
    from the fifth on every failure shows the retry overlay, for its delay
    plus 500 ms. *)
Theorem backoff_growth (es : list Target) (s : Socket) :
  backoffMS_ s = 0%Z ->
  es <> [] ->
  backoffMS_ (after (consecutiveFailures es s))
    = (94 * 2 ^ Z.of_nat (length es) - 93)%Z
  /\ overlays (effects (consecutiveFailures es s))
     = map (fun i => (94 * 2 ^ Z.of_nat i - 93 + 500)%Z) (seq 4 (length es - 4)).
Proof.
  intros H0 Hne.
  assert (Hk : retryDelay s = nthDelay 0).
  { unfold retryDelay. rewrite H0. reflexivity. }
  split.
  - rewrite (consecutiveFailures_after s 0 Hk Hne). cbn [backoffMS_ set_backoffMS_ Nat.add].
    apply nthDelay_closed.
  - rewrite (overlays_from es s 0 Hk), loud_failures.
    apply map_ext. intros i. rewrite nthDelay_closed. reflexivity.
Qed.

(** Six failures on a fresh socket: the fifth and the sixth show the
    overlay. *)
Lemma backoff_growth_witness :
  let es := [readRequest_; readRequest_; writeRequest_; readRequest_;
             writeRequest_; readRequest_] in
  let s := openedSocket (mkRelay [] []) [] 22 [] in
  backoffMS_ s = 0%Z /\ es <> []
  /\ backoffMS_ (after (consecutiveFailures es s)) = 5923%Z
  /\ overlays (effects (consecutiveFailures es s)) = [1911; 3415]%Z.
Proof.
  cbv zeta. split; [reflexivity|].
  assert (Hne : [readRequest_; readRequest_; writeRequest_; readRequest_;
                 writeRequest_; readRequest_] <> []) by discriminate.
  split; [exact Hne|].
  exact (@backoff_growth
           [readRequest_; readRequest_; writeRequest_; readRequest_;
            writeRequest_; readRequest_]
           (openedSocket (mkRelay [] []) [] 22 []) eq_refl Hne).
Defined.

(** * What no event changes *)

Lemma advances_refl (s : Socket) : advances s s.
Proof. unfold advances. repeat split; auto; lia. Qed.

Lemma advances_trans (a b c : Socket) : advances a b -> advances b c -> advances a c.
Proof.
  unfold advances.
  intros (Hr & Hh & Hp & Hs & Hrc & Hwc & Hb) (Hr' & Hh' & Hp' & Hs' & Hrc' & Hwc' & Hb').
  repeat split; try congruence; try lia; auto.
Qed.

Lemma countFor_nonneg (n : nat) : (0 <= countFor n)%Z.
Proof. unfold countFor. apply Z.div_pos; lia. Qed.

Lemma retryDelay_pos (s : Socket) : (0 <= backoffMS_ s -> 1 <= retryDelay s)%Z.
Proof.
  unfold retryDelay. intros H.
  destruct (backoffMS_ s =? 0)%Z eqn:E; [lia|]. apply Z.eqb_neq in E. lia.
Qed.

Lemma onWriteDone__empty (h : Target -> M unit) (e : Target) (req : Xhr) (s : Socket) :
  is_ok req = true -> writeQueue_ s = [] ->
  onWriteDone_ h e req s = (Throw TypeError, s, []).
Proof.
  unfold is_ok. intros Hok Hq.
  apply andb_true_iff in Hok. destruct Hok as [Hr Hs]. apply Z.eqb_eq in Hs.
  unfold onWriteDone_. rewrite Hr, Hs. cbn [Z.eqb negb Pos.eqb].
  unfold bind, get. rewrite Hq. reflexivity.
Qed.

Section Advances.

Variable onRequestError : Target -> M unit.
Hypothesis Hadv : forall e s, advances s (after (onRequestError e s)).

Lemma onReadReady__advances (e : Target) (req : Xhr) (s : Socket) :
  advances s (after (onReadReady_ onRequestError e req s)).
Proof.
  destruct (readyState req =? 4)%Z eqn:Er.
  2:{ unfold onReadReady_. rewrite Er. apply advances_refl. }
  destruct (status req =? 410)%Z eqn:E410.
  { unfold onReadReady_. rewrite Er, E410. unfold advances. cbn.
    repeat split; auto; lia. }
  destruct (status req =? 200)%Z eqn:E200.
  2:{ unfold onReadReady_. rewrite Er, E410, E200. apply Hadv. }
  pose proof (countFor_nonneg (length (responseText req))) as Hc.
  unfold countFor in Hc.
  destruct (length (responseText req) mod 4 =? 1)%nat eqn:Em.
  - apply Z.eqb_eq in Er, E200. apply Nat.eqb_eq in Em.
    rewrite (@onReadReady__malformed onRequestError e req s Er E200 Em).
    unfold advances, readCount_after. cbn. repeat split; auto; lia.
  - assert (Hg : good_read req = true).
    { unfold good_read. rewrite Er, E200, Em. reflexivity. }
    destruct (@onReadReady__ok onRequestError e req s Hg) as (data & _ & ->).
    unfold advances, readCount_after. cbn. repeat split; auto; lia.
Qed.

Lemma onWriteDone__advances (e : Target) (req : Xhr) (s : Socket) :
  advances s (after (onWriteDone_ onRequestError e req s)).
Proof.
  destruct (readyState req =? 4)%Z eqn:Er.
  2:{ rewrite onWriteDone__not_ready by assumption. apply advances_refl. }
  destruct (status req =? 410)%Z eqn:E410.
  { rewrite onWriteDone__gone by assumption. unfold advances. cbn.
    repeat split; auto; lia. }
  destruct (status req =? 200)%Z eqn:E200.
  2:{ rewrite onWriteDone__other by assumption. apply Hadv. }
  assert (Hok : is_ok req = true) by (unfold is_ok; rewrite Er, E200; reflexivity).
  destruct (writeQueue_ s) as [|msg rest] eqn:Hq.
  - rewrite onWriteDone__empty by assumption. apply advances_refl.
  - rewrite (@onWriteDone__ack onRequestError e req s msg rest Hok Hq).
    pose proof (countFor_nonneg (length msg)).
    unfold advances. cbn. repeat split; auto; lia.
Qed.

Lemma asyncWrite_advances (data : str) (onWrite : bool) (s : Socket) :
  advances s (after (asyncWrite data onWrite s)).
Proof.
  destruct onWrite; [apply advances_refl|].
  destruct data as [|c data]; [apply advances_refl|].
  rewrite asyncWrite_after by discriminate.
  unfold advances. cbn. repeat split; auto; lia.
Qed.

Lemma dispatch_advances (ev : Event) (w : World) :
  advances (sock w) (sock (dispatch onRequestError ev w)).
Proof.
  destruct ev as [t req | t | n | data onWrite | ]; cbn [dispatch].
  - destruct t; unfold absorb; cbn [sock].
    + apply onReadReady__advances.
    + apply onWriteDone__advances.
  - unfold absorb. cbn [sock]. rewrite onRequestError__unfold.
    pose proof (retryDelay_pos (sock w)).
    unfold advances. cbn. repeat split; auto; lia.
  - destruct (nth_error (timers w) n) as [[f ms]|]; [|apply advances_refl].
    unfold absorb. cbn [sock]. rewrite retry_after. apply advances_refl.
  - unfold absorb. cbn [sock]. apply asyncWrite_advances.
  - unfold absorb. cbn. unfold advances. cbn. repeat split; auto; lia.
Qed.

Lemma run_advances (evs : list Event) :
  forall w, advances (sock w) (sock (run onRequestError evs w)).
Proof.
  induction evs as [|ev evs IH]; intros w; [apply advances_refl|].
  cbn [run fold_left]. fold (run onRequestError evs (dispatch onRequestError ev w)).
  eapply advances_trans; [apply dispatch_advances | apply IH].
Qed.

End Advances.

(** X10. Through any sequence of events the socket keeps its relay, host,
    port and session id, and neither [readCount_] nor [writeCount_] ever goes
    down; a backoff that is not negative stays so.  (The missing
    [onRequestError] is asked to do the same.) *)
Theorem session_kept_counts_grow
    (onRequestError : Target -> M unit) (evs : list Event) (w : World) :
  (forall e s, advances s (after (onRequestError e s))) ->
  let s := sock w in
  let s' := sock (run onRequestError evs w) in
  relay_ s' = relay_ s /\ host_ s' = host_ s /\ port_ s' = port_ s
  /\ sessionID_ s' = sessionID_ s
  /\ (readCount_ s <= readCount_ s')%Z
  /\ (writeCount_ s <= writeCount_ s')%Z
  /\ (0 <= backoffMS_ s -> 0 <= backoffMS_ s')%Z.
Proof.
  intros Hadv. exact (@run_advances onRequestError Hadv evs w).
Qed.

Lemma onRequestError_spec_advances (e : Target) (s : Socket) :
  advances s (after (onRequestError_spec e s)).
Proof.
  unfold onRequestError_spec. rewrite onRequestError__unfold.
  pose proof (retryDelay_pos s).
  unfold advances. cbn. repeat split; auto; lia.
Qed.

(** A read, a failed write, a completion with status 503, a retry and a
    close, on an open socket. *)
Lemma session_kept_counts_grow_witness :
  let w := openedWorld (mkRelay [] (lit "r/"%string)) (lit "h"%string) 22 (lit "sid0"%string) in
  let evs := [LoadEnd readRequest_ (mkXhr 4 200 (lit "QUJD"%string));
              CallAsyncWrite (lit "QUI="%string) false;
              Failure writeRequest_;
              LoadEnd readRequest_ (mkXhr 4 503 []);
              TimerFires 0; CallClose] in
  (forall e s, advances s (after (onRequestError_spec e s)))
  /\ sessionID_ (sock (run onRequestError_spec evs w)) = lit "sid0"%string
  /\ (0 <= readCount_ (sock (run onRequestError_spec evs w)))%Z.
Proof.
  cbv zeta. split; [exact onRequestError_spec_advances|].
  pose proof (@session_kept_counts_grow onRequestError_spec
                [LoadEnd readRequest_ (mkXhr 4 200 (lit "QUJD"%string));
                 CallAsyncWrite (lit "QUI="%string) false;
                 Failure writeRequest_;
                 LoadEnd readRequest_ (mkXhr 4 503 []);
                 TimerFires 0; CallClose]
                (openedWorld (mkRelay [] (lit "r/"%string)) (lit "h"%string) 22
                   (lit "sid0"%string))
                onRequestError_spec_advances) as H.
  cbv zeta in H. destruct H as (_ & _ & _ & Hs & Hr & _).
  split; [exact Hs | exact Hr].
Defined.

(** * The state of the stream is never read *)

Lemma sameButLifecycle_refl (s : Socket) : sameButLifecycle s s.
Proof. reflexivity. Qed.

Lemma sameButLifecycle_set (l : StreamLifecycle) (s : Socket) :
  sameButLifecycle (set_lifecycle l s) s.
Proof. reflexivity. Qed.

Lemma sameButLifecycle_fields (s1 s2 : Socket) :
  sameButLifecycle s1 s2 -> s2 = set_lifecycle (lifecycle s2) s1.
Proof.
  unfold sameButLifecycle. destruct s1, s2. cbn. intros H.
  injection H as -> -> -> -> -> -> -> ->. reflexivity.
Qed.

Ltac same_fields H :=
  apply sameButLifecycle_fields in H;
  let l := fresh "l" in
  match type of H with ?s2 = set_lifecycle (lifecycle ?s2) ?s1 =>
    generalize dependent (lifecycle s2); intros l H; subst s2
  end.

Lemma blind_resumeRead_ : blind resumeRead_.
Proof. intros s1 s2 H. same_fields H. repeat split. Qed.

Lemma blind_serviceWriteQueue_ : blind serviceWriteQueue_.
Proof.
  intros s1 s2 H. same_fields H.
  unfold serviceWriteQueue_, bind, get. cbn [writeQueue_ set_lifecycle].
  destruct (writeQueue_ s1); repeat split.
Qed.

Lemma blind_retry (f : Retry) : blind (retry f).
Proof. destruct f; [apply blind_resumeRead_ | apply blind_serviceWriteQueue_]. Qed.

Lemma blind_close : blind close.
Proof. intros s1 s2 H. same_fields H. repeat split. Qed.

Lemma blind_onRequestError_ (e : Target) : blind (onRequestError_ e).
Proof.
  intros s1 s2 H. same_fields H. rewrite !onRequestError__unfold. repeat split.
Qed.

Lemma blind_asyncWrite (data : str) (onWrite : bool) : blind (asyncWrite data onWrite).
Proof.
  intros s1 s2 H. same_fields H.
  destruct onWrite; [repeat split|].
  destruct data as [|c data]; [repeat split|].
  destruct (@asyncWrite_unfold (c :: data) s1 ltac:(discriminate))
    as (full & last & Hloop & _ & _ & _ & _ & ->).
  destruct (@asyncWrite_unfold (c :: data) (set_lifecycle l s1) ltac:(discriminate))
    as (full' & last' & Hloop' & _ & _ & _ & _ & ->).
  cbn [writeQueue_ set_lifecycle] in Hloop'. rewrite Hloop in Hloop'.
  injection Hloop' as Hf ->. apply app_inv_head in Hf. subst full'.
  unfold completion, effects, after. cbn [fst snd writeQueue_ set_lifecycle].
  repeat split.
Qed.

Section Blind.

Variable onRequestError : Target -> M unit.
Hypothesis Hblind : forall e, blind (onRequestError e).

Lemma blind_onReadReady_ (e : Target) (req : Xhr) :
  blind (onReadReady_ onRequestError e req).
Proof.
  intros s1 s2 H.
  destruct (readyState req =? 4)%Z eqn:Er.
  2:{ unfold onReadReady_. rewrite Er. cbn. repeat split. exact H. }
  destruct (status req =? 410)%Z eqn:E410.
  { unfold onReadReady_. rewrite Er, E410. cbn. apply blind_close. exact H. }
  destruct (status req =? 200)%Z eqn:E200.
  2:{ unfold onReadReady_. rewrite Er, E410, E200. cbn. apply Hblind. exact H. }
  same_fields H.
  destruct (length (responseText req) mod 4 =? 1)%nat eqn:Em.
  - apply Z.eqb_eq in Er, E200. apply Nat.eqb_eq in Em.
    rewrite !(@onReadReady__malformed onRequestError e req _ Er E200 Em).
    repeat split.
  - assert (Hg : good_read req = true).
    { unfold good_read. rewrite Er, E200, Em. reflexivity. }
    destruct (@onReadReady__ok onRequestError e req s1 Hg) as (data & Hd & ->).
    destruct (@onReadReady__ok onRequestError e req (set_lifecycle l s1) Hg)
      as (data' & Hd' & ->).
    assert (data' = data).
    { rewrite webSafeToBase64__unfold in Hd, Hd'.
      destruct (length (responseText req) mod 4)%nat as [|[|[|[|r]]]]; congruence. }
    subst data'. repeat split.
Qed.

Lemma blind_onWriteDone_ (e : Target) (req : Xhr) :
  blind (onWriteDone_ onRequestError e req).
Proof.
  intros s1 s2 H.
  destruct (readyState req =? 4)%Z eqn:Er.
  2:{ rewrite !onWriteDone__not_ready by assumption. repeat split. exact H. }
  destruct (status req =? 410)%Z eqn:E410.
  { rewrite !onWriteDone__gone by assumption.
    same_fields H. repeat split. }
  destruct (status req =? 200)%Z eqn:E200.
  2:{ rewrite !onWriteDone__other by assumption. apply Hblind. exact H. }
  assert (Hok : is_ok req = true) by (unfold is_ok; rewrite Er, E200; reflexivity).
  same_fields H.
  destruct (writeQueue_ s1) as [|msg rest] eqn:Hq.
  - rewrite !onWriteDone__empty by assumption. repeat split.
  - rewrite (@onWriteDone__ack onRequestError e req s1 msg rest Hok Hq).
    rewrite (@onWriteDone__ack onRequestError e req (set_lifecycle l s1) msg rest Hok Hq).
    repeat split.
Qed.

(** Two worlds that differ at most in the state of the stream. *)
Lemma absorb_blind {A} (m : M A) (w1 w2 : World) :
  blind m ->
  sameButLifecycle (sock w1) (sock w2) -> timers w1 = timers w2 -> trace w1 = trace w2 ->
  sameButLifecycle (sock (absorb m w1)) (sock (absorb m w2))
  /\ timers (absorb m w1) = timers (absorb m w2)
  /\ trace (absorb m w1) = trace (absorb m w2).
Proof.
  intros Hm Hs Ht Htr. destruct (Hm _ _ Hs) as (_ & He & Ha).
  unfold absorb. cbn [sock timers trace]. rewrite He, Ht, Htr.
  repeat split. exact Ha.
Qed.

Lemma dispatch_blind (ev : Event) (w1 w2 : World) :
  sameButLifecycle (sock w1) (sock w2) -> timers w1 = timers w2 -> trace w1 = trace w2 ->
  sameButLifecycle (sock (dispatch onRequestError ev w1))
                   (sock (dispatch onRequestError ev w2))
  /\ timers (dispatch onRequestError ev w1) = timers (dispatch onRequestError ev w2)
  /\ trace (dispatch onRequestError ev w1) = trace (dispatch onRequestError ev w2).
Proof.
  intros Hs Ht Htr.
  destruct ev as [t req | t | n | data onWrite | ]; cbn [dispatch].
  - destruct t; apply absorb_blind; auto using blind_onReadReady_, blind_onWriteDone_.
  - apply absorb_blind; auto using blind_onRequestError_.
  - rewrite Ht. destruct (nth_error (timers w2) n) as [[f ms]|]; [|auto].
    apply absorb_blind; cbn [sock timers trace]; auto using blind_retry.
  - apply absorb_blind; auto using blind_asyncWrite.
  - apply absorb_blind; auto using blind_close.
Qed.

Lemma run_blind (evs : list Event) :
  forall w1 w2,
    sameButLifecycle (sock w1) (sock w2) -> timers w1 = timers w2 -> trace w1 = trace w2 ->
    sameButLifecycle (sock (run onRequestError evs w1)) (sock (run onRequestError evs w2))
    /\ timers (run onRequestError evs w1) = timers (run onRequestError evs w2)
    /\ trace (run onRequestError evs w1) = trace (run onRequestError evs w2).
Proof.
  induction evs as [|ev evs IH]; intros w1 w2 Hs Ht Htr; [auto|].
  cbn [run fold_left].
  fold (run onRequestError evs (dispatch onRequestError ev w1)).
  fold (run onRequestError evs (dispatch onRequestError ev w2)).
  destruct (dispatch_blind ev w1 w2 Hs Ht Htr) as (Hs' & Ht' & Htr').
  apply IH; assumption.
Qed.

End Blind.

(** X11. No method of the socket looks at the state of the stream.  Take any
    world and the same world with the stream put in another state (closed,
    say): whatever events follow, the two send the same requests, start the
    same timers, deliver the same data and end in sockets that differ at most
    in that state.  (The missing [onRequestError] is asked not to look
    either.) *)
Theorem lifecycle_never_read
    (onRequestError : Target -> M unit) (l : StreamLifecycle)
    (evs : list Event) (w : World) :
  (forall e, blind (onRequestError e)) ->
  let w1 := run onRequestError evs w in
  let w2 := run onRequestError evs (closeWith (set_lifecycle l) w) in
  trace w2 = trace w1
  /\ timers w2 = timers w1
  /\ set_lifecycle Closed (sock w2) = set_lifecycle Closed (sock w1).
Proof.
  intros Hblind. cbv zeta.
  destruct (@run_blind onRequestError Hblind evs (closeWith (set_lifecycle l) w) w)
    as (Hs & Ht & Htr); try reflexivity.
  split; [exact Htr|]. split; [exact Ht | exact Hs].
Qed.

Lemma onRequestError_undefined_blind (e : Target) : blind (onRequestError_undefined e).
Proof. intros s1 s2 H. repeat split. exact H. Qed.

(** A write on a closed stream is sent as on an open one. *)
Lemma lifecycle_never_read_witness :
  let w := openedWorld (mkRelay [] (lit "r/"%string)) [] 22 (lit "sid0"%string) in
  let evs := [CallAsyncWrite (lit "QUI="%string) false] in
  (forall e, blind (onRequestError_undefined e))
  /\ trace (run onRequestError_undefined evs (closeWith (set_lifecycle Closed) w))
     = trace w ++ [XhrGet writeRequest_
                     (WriteUrl (lit "r/"%string) (lit "sid0"%string) 0 (lit "QUI"%string))].
Proof.
  cbv zeta. split; [exact onRequestError_undefined_blind|].
  exact (proj1 (@lifecycle_never_read onRequestError_undefined Closed
                  [CallAsyncWrite (lit "QUI="%string) false]
                  (openedWorld (mkRelay [] (lit "r/"%string)) [] 22 (lit "sid0"%string))
                  onRequestError_undefined_blind)).
Defined.

(** * The relay object *)

Module RelayFacts.
Import Relay.

Lemma str_eqb_eq (a b : str) : str_eqb a b = true <-> a = b.
Proof.
  unfold str_eqb. destruct (list_eq_dec ascii_dec a b); split; congruence.
Qed.

Lemma str_eqb_refl (a : str) : str_eqb a a = true.
Proof. apply str_eqb_eq. reflexivity. Qed.

Lemma keys_differ :
  str_eqb googleRelayHost googleRelayServer = false
  /\ str_eqb googleRelayHost googleRelayDestination = false
  /\ str_eqb googleRelayHost googleRelayQueryString = false
  /\ str_eqb googleRelayDestination googleRelayServer = false
  /\ str_eqb googleRelayDestination googleRelayQueryString = false
  /\ str_eqb googleRelayServer googleRelayDestination = false
  /\ str_eqb googleRelayQueryString googleRelayDestination = false
  /\ str_eqb googleRelayServer googleRelayQueryString = false.
Proof. repeat split; vm_compute; reflexivity. Qed.

Ltac storage :=
  unfold requestRelayServer, getItem, setItem, removeItem, assign, warn;
  cbn [sessionStorage search host location warnings proxy relayServer];
  destruct keys_differ as (K1 & K2 & K3 & K4 & K5 & K6 & K7 & K8);
  rewrite ?str_eqb_refl, ?K1, ?K2, ?K3, ?K4, ?K5, ?K6, ?K7, ?K8.

Section WithReplaceVars.

Variable replaceVars : str -> list (str * str) -> str.

(** What [init] does when the stored host and destination fit. *)
Lemma init_matched (this : t) (username hostname : str) (port : PortArg) (pg : Page)
    (c : ascii) (h : str) :
  getItem googleRelayHost pg = Some (c :: h) ->
  getItem googleRelayDestination pg = Some (destinationOf this username hostname port) ->
  truthy (Some (replaceVars relayServerPattern [(lit "host", c :: h)])) = true ->
  init replaceVars this username hostname port pg =
    (true,
     mk (proxy this) (Some (replaceVars relayServerPattern [(lit "host", c :: h)])),
     removeItem googleRelayDestination (removeItem googleRelayServer pg)).
Proof.
  intros Hh Hd Ht. unfold init. rewrite Hh, Hd, str_eqb_refl.
  cbn [relayServer]. rewrite Ht. reflexivity.
Qed.

(** What [init] does when nothing usable is stored and no relay is known. *)
Lemma init_unmatched (this : t) (username hostname : str) (port : PortArg) (pg : Page) :
  truthy (relayServer this) = false ->
  truthy (getItem googleRelayHost pg) = false ->
  init replaceVars this username hostname port pg =
    (false, this,
     requestRelayServer replaceVars this (destinationOf this username hostname port)
       (removeItem googleRelayDestination (removeItem googleRelayServer pg))).
Proof.
  intros Hr Hh. unfold init.
  destruct (getItem googleRelayHost pg) as [[|c h]|]; try discriminate;
    rewrite Hr; reflexivity.
Qed.

(** X12. What [init] returns tells what it did.  When it returns true the
    relay server is known, the page is not left, and the saved destination is
    gone from the session storage.  When it returns false no relay server is
    known, the destination and the query string (the empty string when
    [location.search] is shorter than two characters) are stored, and the
    page is left for the cookie server.  In both cases the stored relay host
    is still there. *)
Theorem init_outcome
    (this : t) (username hostname : str) (port : PortArg) (pg : Page) :
  match init replaceVars this username hostname port pg with
  | (true, this', pg') =>
      truthy (relayServer this') = true
      /\ proxy this' = proxy this
      /\ location pg' = location pg
      /\ getItem googleRelayDestination pg' = None
      /\ getItem googleRelayHost pg' = getItem googleRelayHost pg
  | (false, this', pg') =>
      truthy (relayServer this') = false
      /\ proxy this' = proxy this
      /\ location pg'
         = Some (replaceVars cookieServerPattern
                   [(lit "host", proxy this); (lit "return_to", host pg)])
      /\ getItem googleRelayDestination pg'
         = Some (destinationOf this username hostname port)
      /\ getItem googleRelayQueryString pg'
         = Some (if (length (search pg) <? 2)%nat then [] else search pg)
      /\ getItem googleRelayHost pg' = getItem googleRelayHost pg
  end.
Proof.
  unfold init.
  set (dest := destinationOf this username hostname port).
  assert (Hfin : forall this0 pg0,
    proxy this0 = proxy this -> location pg0 = location pg ->
    search pg0 = search pg -> host pg0 = host pg ->
    sessionStorage pg0 = sessionStorage pg ->
    match (if truthy (relayServer this0)
           then (true, this0,
                 removeItem googleRelayDestination (removeItem googleRelayServer pg0))
           else (false, this0,
                 requestRelayServer replaceVars this0 dest
                   (removeItem googleRelayDestination (removeItem googleRelayServer pg0))))
    with
    | (true, this', pg') =>
        truthy (relayServer this') = true
        /\ proxy this' = proxy this
        /\ location pg' = location pg
        /\ getItem googleRelayDestination pg' = None
        /\ getItem googleRelayHost pg' = getItem googleRelayHost pg
    | (false, this', pg') =>
        truthy (relayServer this') = false
        /\ proxy this' = proxy this
        /\ location pg'
           = Some (replaceVars cookieServerPattern
                     [(lit "host", proxy this); (lit "return_to", host pg)])
        /\ getItem googleRelayDestination pg' = Some dest
        /\ getItem googleRelayQueryString pg'
           = Some (if (length (search pg) <? 2)%nat then [] else search pg)
        /\ getItem googleRelayHost pg' = getItem googleRelayHost pg
    end).
  { intros this0 pg0 Hp Hl Hs Hho Hst.
    destruct (truthy (relayServer this0)) eqn:Ht.
    - split; [exact Ht|]. split; [exact Hp|]. storage. rewrite Hst.
      repeat split. exact Hl.
    - split; [exact Ht|]. split; [exact Hp|]. storage. rewrite Hst, Hp, Hs, Hho.
      repeat split. }
  destruct (getItem googleRelayHost pg) as [[|c h]|];
    try (apply Hfin; reflexivity).
  destruct (getItem googleRelayDestination pg) as [saved|];
    [destruct (str_eqb saved dest)|]; apply Hfin; reflexivity.
Qed.

(** X13. Out and back.  A first [init], with no relay known and no relay host
    stored, returns false and leaves for the cookie server.  When the page
    comes back with the destination still stored and a relay host beside it,
    [init] with the same user and host, and a port that prints the same (left
    out, 0 or empty for 22), on a new relay object for the same proxy returns
    true, with the relay server made from the stored host. *)
Theorem init_out_and_back
    (this : t) (username hostname : str) (port port' : PortArg)
    (pg back : Page) (c : ascii) (h : str) :
  relayServer this = None ->
  truthy (getItem googleRelayHost pg) = false ->
  getItem googleRelayDestination back
    = getItem googleRelayDestination
        (snd (init replaceVars this username hostname port pg)) ->
  getItem googleRelayHost back = Some (c :: h) ->
  portOrDefault port' = portOrDefault port ->
  replaceVars relayServerPattern [(lit "host", c :: h)] <> [] ->
  fst (fst (init replaceVars this username hostname port pg)) = false
  /\ init replaceVars this username hostname port' back =
       (true,
        mk (proxy this) (Some (replaceVars relayServerPattern [(lit "host", c :: h)])),
        removeItem googleRelayDestination (removeItem googleRelayServer back)).
Proof.
  intros Hnone Hhost Hdest Hback Hport Hrv.
  assert (Hr : truthy (relayServer this) = false) by (rewrite Hnone; reflexivity).
  rewrite (init_unmatched this username hostname port pg Hr Hhost) in *.
  split; [reflexivity|].
  apply init_matched; [exact Hback | |].
  - rewrite Hdest. cbn [snd]. storage.
    unfold destinationOf. rewrite Hport. reflexivity.
  - destruct (replaceVars relayServerPattern [(lit "host", c :: h)]);
      [congruence | reflexivity].
Qed.

Lemma init_true_inv (this : t) (username hostname : str) (port : PortArg) (pg : Page) :
  relayServer this = None ->
  fst (fst (init replaceVars this username hostname port pg)) = true ->
  exists c h,
    getItem googleRelayHost pg = Some (c :: h)
    /\ init replaceVars this username hostname port pg =
         (true,
          mk (proxy this) (Some (replaceVars relayServerPattern [(lit "host", c :: h)])),
          removeItem googleRelayDestination (removeItem googleRelayServer pg)).
Proof.
  intros Hnone. unfold init.
  set (dest := destinationOf this username hostname port).
  destruct (getItem googleRelayHost pg) as [[|c h]|];
    try (rewrite Hnone; cbn; discriminate).
  destruct (getItem googleRelayDestination pg) as [saved|];
    [destruct (str_eqb saved dest)|]; try (rewrite Hnone; cbn; discriminate).
  cbn [relayServer].
  destruct (truthy (Some (replaceVars relayServerPattern [(lit "host", c :: h)])));
    [|cbn; discriminate].
  intros _. exists c, h. split; reflexivity.
Qed.

(** X14. A stored relay host serves once.  After an [init] that returned
    true, [init] for the same destination on a new relay object, with the
    page as the first one left it, finds the relay host but no destination:
    it warns of a mismatch with null, returns false and leaves for the cookie
    server. *)
Theorem init_serves_once
    (this : t) (username hostname : str) (port : PortArg) (pg : Page) :
  relayServer this = None ->
  fst (fst (init replaceVars this username hostname port pg)) = true ->
  let pg1 := snd (init replaceVars this username hostname port pg) in
  let r := init replaceVars this username hostname port pg1 in
  fst (fst r) = false
  /\ warnings (snd r)
     = warnings pg1 ++ [(None, destinationOf this username hostname port)]
  /\ location (snd r)
     = Some (replaceVars cookieServerPattern
               [(lit "host", proxy this); (lit "return_to", host pg)]).
Proof.
  intros Hnone Hok. cbv zeta.
  destruct (init_true_inv this username hostname port pg Hnone Hok)
    as (c & h & Hh & Hrun).
  rewrite Hrun. cbn [snd].
  unfold init. set (dest := destinationOf this username hostname port).
  assert (Hh1 : getItem googleRelayHost
                  (removeItem googleRelayDestination (removeItem googleRelayServer pg))
                = Some (c :: h)).
  { storage. exact Hh. }
  assert (Hd1 : getItem googleRelayDestination
                  (removeItem googleRelayDestination (removeItem googleRelayServer pg))
                = None).
  { storage. reflexivity. }
  rewrite Hh1, Hd1, Hnone. cbn [truthy fst snd].
  repeat split.
Qed.

End WithReplaceVars.

(** First visit with the port left out; back with port 22 and the relay host
    stored by the relay page. *)
Lemma init_out_and_back_witness :
  let this := mk (lit "proxy") None in
  let pg1 := snd (init sampleReplaceVars this (lit "u") (lit "h") PortUndefined emptyPage) in
  let back := setItem googleRelayHost (lit "relay") pg1 in
  relayServer this = None
  /\ truthy (getItem googleRelayHost emptyPage) = false
  /\ getItem googleRelayDestination back = Some (lit "u@h:22@proxy")
  /\ fst (fst (init sampleReplaceVars this (lit "u") (lit "h") (PortNumber 22) back)) = true.
Proof.
  cbv zeta. split; [reflexivity|]. split; [reflexivity|]. split; [reflexivity|].
  pose proof (@init_out_and_back sampleReplaceVars (mk (lit "proxy") None)
                (lit "u") (lit "h") PortUndefined (PortNumber 22) emptyPage
                (setItem googleRelayHost (lit "relay")
                   (snd (init sampleReplaceVars (mk (lit "proxy") None)
                           (lit "u") (lit "h") PortUndefined emptyPage)))
                "r"%char (lit "elay")
                eq_refl eq_refl eq_refl eq_refl eq_refl ltac:(discriminate)) as H.
  destruct H as [_ H]. rewrite H. reflexivity.
Defined.

(** The page of the witness above, used a second time. *)
Lemma init_serves_once_witness :
  let this := mk (lit "proxy") None in
  let pg1 := snd (init sampleReplaceVars this (lit "u") (lit "h") PortUndefined emptyPage) in
  let back := setItem googleRelayHost (lit "relay") pg1 in
  let again := snd (init sampleReplaceVars this (lit "u") (lit "h") PortUndefined back) in
  relayServer this = None
  /\ fst (fst (init sampleReplaceVars this (lit "u") (lit "h") PortUndefined back)) = true
  /\ fst (fst (init sampleReplaceVars this (lit "u") (lit "h") PortUndefined again)) = false.
Proof.
  cbv zeta. split; [reflexivity|]. split; [reflexivity|].
  exact (proj1 (@init_serves_once sampleReplaceVars (mk (lit "proxy") None)
                  (lit "u") (lit "h") PortUndefined
                  (setItem googleRelayHost (lit "relay")
                     (snd (init sampleReplaceVars (mk (lit "proxy") None)
                             (lit "u") (lit "h") PortUndefined emptyPage)))
                  eq_refl eq_refl)).
Defined.

End RelayFacts.

(** * Opening *)

(** X15. Opening a socket as the constructor left it, and receiving the
    session id with status 200, gives the open socket the read loop starts
    from: the session id is the body of the response, the first hanging GET
    has been sent with that id and count 0, and [onComplete(true)] is called
    once, after it.  A session request that is done with any other status
    reports [onComplete(false)] once, stores no session id and sends no read
    request; one that is not done does nothing. *)
Theorem open_starts_read_loop
    (relay : GoogleRelay) (host : str) (port : Z) (req : Xhr) (s : Socket) :
  constructed s ->
  let s1 := fst (asyncOpen_ relay host port s) in
  snd (asyncOpen_ relay host port s) = [SessionGet (relayServer relay) host port]
  /\ if negb (readyState req =? 4)%Z then onReady req s1 = (s1, [])
     else if (status req =? 200)%Z then
       set_lifecycle Open (fst (onReady req s1))
         = openedSocket relay host port (responseText req)
       /\ snd (onReady req s1)
          = map OfSocket (trace (openedWorld relay host port (responseText req)))
            ++ [OnComplete true]
       /\ trace (openedWorld relay host port (responseText req))
          = [XhrGet readRequest_ (ReadUrl (relayServer relay) (responseText req) 0)]
     else onReady req s1 = (s1, [LogSessionFailed; OnComplete false]).
Proof.
  intros Hc. destruct s as [lc h0 p0 r0 sid0 b q wc rc].
  unfold constructed in Hc. cbn in Hc. destruct Hc as (-> & -> & -> & ->).
  cbv zeta. split; [reflexivity|].
  unfold onReady.
  destruct (negb (readyState req =? 4)%Z); [reflexivity|].
  destruct (status req =? 200)%Z; [|reflexivity].
  cbn [negb]. repeat split.
Qed.

(** A new socket, and a session request answered with the id ["sid0"]. *)
Lemma open_starts_read_loop_witness :
  let s := mkSocket Opening [] 0 (mkRelay [] []) [] 0 [] 0 0 in
  let relay := mkRelay [] (lit "r/") in
  constructed s
  /\ onReady (mkXhr 4 200 (lit "sid0")) (fst (asyncOpen_ relay (lit "h") 22 s))
     = (set_lifecycle Opening (openedSocket relay (lit "h") 22 (lit "sid0")),
        [OfSocket (XhrGet readRequest_ (ReadUrl (lit "r/") (lit "sid0") 0));
         OnComplete true]).
Proof.
  cbv zeta.
  assert (Hc : constructed (mkSocket Opening [] 0 (mkRelay [] []) [] 0 [] 0 0))
    by (repeat split).
  split; [exact Hc|].
  pose proof (@open_starts_read_loop (mkRelay [] (lit "r/")) (lit "h") 22
                (mkXhr 4 200 (lit "sid0"))
                (mkSocket Opening [] 0 (mkRelay [] []) [] 0 [] 0 0) Hc) as H.
  cbv zeta in H. destruct H as [_ H]. cbn [negb readyState status Z.eqb Pos.eqb] in H.
  destruct H as (_ & H2 & _).
  apply injective_projections; [reflexivity | exact H2].
Defined.

(** * Further properties of failures and closing *)

Section ReadHead.

Variable onRequestError : Target -> M unit.
Hypothesis Hframe : keeps_read_path onRequestError.

Lemma onReadReady__readHead (e : Target) (req : Xhr) (s : Socket) :
  is_ok req = false ->
  readHead (after (onReadReady_ onRequestError e req s)) = readHead s.
Proof.
  unfold is_ok. intros Hok.
  destruct (readyState req =? 4)%Z eqn:Er.
  2:{ unfold onReadReady_. rewrite Er. reflexivity. }
  cbn [andb] in Hok.
  destruct (status req =? 410)%Z eqn:E410.
  { unfold onReadReady_. rewrite Er, E410. reflexivity. }
  unfold onReadReady_. rewrite Er, E410, Hok. apply Hframe.
Qed.

Lemma onWriteDone__readHead (e : Target) (req : Xhr) (s : Socket) :
  readHead (after (onWriteDone_ onRequestError e req s)) = readHead s.
Proof.
  destruct (readyState req =? 4)%Z eqn:Er.
  2:{ rewrite onWriteDone__not_ready by assumption. reflexivity. }
  destruct (status req =? 410)%Z eqn:E410.
  { rewrite onWriteDone__gone by assumption. reflexivity. }
  destruct (status req =? 200)%Z eqn:E200.
  2:{ rewrite onWriteDone__other by assumption. apply Hframe. }
  assert (Hok : is_ok req = true) by (unfold is_ok; rewrite Er, E200; reflexivity).
  destruct (writeQueue_ s) as [|msg rest] eqn:Hq.
  - rewrite onWriteDone__empty by assumption. reflexivity.
  - rewrite (@onWriteDone__ack onRequestError e req s msg rest Hok Hq). reflexivity.
Qed.

Lemma asyncWrite_readHead (data : str) (onWrite : bool) (s : Socket) :
  readHead (after (asyncWrite data onWrite s)) = readHead s.
Proof.
  destruct onWrite; [reflexivity|].
  destruct data as [|c data]; [reflexivity|].
  rewrite asyncWrite_after by discriminate. reflexivity.
Qed.

Lemma dispatch_readHead (ev : Event) (w : World) :
  is_read_done ev = false ->
  readHead (sock (dispatch onRequestError ev w)) = readHead (sock w).
Proof.
  intros Hev. destruct ev as [t req | t | n | data onWrite | ]; cbn [dispatch].
  - destruct t; unfold absorb; cbn [sock].
    + apply onReadReady__readHead. exact Hev.
    + apply onWriteDone__readHead.
  - unfold absorb. cbn [sock]. rewrite onRequestError__unfold. reflexivity.
  - destruct (nth_error (timers w) n) as [[f ms]|]; [|reflexivity].
    unfold absorb. cbn [sock]. rewrite retry_after. reflexivity.
  - unfold absorb. cbn [sock]. apply asyncWrite_readHead.
  - reflexivity.
Qed.

Lemma run_readHead (evs : list Event) :
  forall w,
    forallb (fun ev => negb (is_read_done ev)) evs = true ->
    readHead (sock (run onRequestError evs w)) = readHead (sock w).
Proof.
  induction evs as [|ev evs IH]; intros w Hall; [reflexivity|].
  cbn [forallb] in Hall. apply andb_true_iff in Hall. destruct Hall as [Hev Hevs].
  apply negb_true_iff in Hev.
  cbn [run fold_left]. fold (run onRequestError evs (dispatch onRequestError ev w)).
  rewrite (IH _ Hevs). apply dispatch_readHead. exact Hev.
Qed.

End ReadHead.

Lemma deliveries_onRequestError_ (e : Target) (s : Socket) :
  deliveries (effects (onRequestError_ e s)) = []
  /\ readCounts (effects (onRequestError_ e s)) = []
  /\ writeRequests (effects (onRequestError_ e s)) = [].
Proof.
  rewrite onRequestError__unfold. unfold effects. cbn [snd].
  destruct (1000 <=? retryDelay s)%Z; repeat split.
Qed.

(** X16. A read that fails for the moment is asked again as it was.  The
    failure itself delivers nothing, sends nothing and leaves [readCount_]
    alone; it starts one timer for [resumeRead_].  Whatever events come
    before that timer fires, as long as none is a completed read with status
    200, the retry sends the read request with the session id and the count
    of before the failure.  (The missing [onRequestError] is asked to leave
    them alone too.) *)
Theorem read_failure_repeats
    (onRequestError : Target -> M unit) (evs : list Event) (w : World) :
  keeps_read_path onRequestError ->
  forallb (fun ev => negb (is_read_done ev)) evs = true ->
  let w1 := dispatch onRequestError (Failure readRequest_) w in
  deliveries (trace w1) = deliveries (trace w)
  /\ readCounts (trace w1) = readCounts (trace w)
  /\ timers w1 = timers w ++ [(RetryResumeRead, retryDelay (sock w))]
  /\ effects (retry RetryResumeRead (sock (run onRequestError evs w1)))
     = [XhrGet readRequest_
          (ReadUrl (relayServer (relay_ (sock w))) (sessionID_ (sock w))
             (readCount_ (sock w)))].
Proof.
  intros Hframe Hevs. cbv zeta.
  destruct (deliveries_onRequestError_ readRequest_ (sock w)) as (Hd & Hr & _).
  pose proof (@run_readHead onRequestError Hframe evs
                (dispatch onRequestError (Failure readRequest_) w) Hevs) as Hrun.
  assert (Hstep : readHead (sock (dispatch onRequestError (Failure readRequest_) w))
                  = readHead (sock w)).
  { apply dispatch_readHead; [exact Hframe | reflexivity]. }
  rewrite Hstep in Hrun. clear Hstep.
  set (w2 := run onRequestError evs (dispatch onRequestError (Failure readRequest_) w)) in *.
  split; [|split; [|split]].
  - cbn [dispatch]. unfold absorb. cbn [trace].
    rewrite deliveries_app, Hd. apply app_nil_r.
  - cbn [dispatch]. unfold absorb. cbn [trace].
    rewrite readCounts_app, Hr. apply app_nil_r.
  - cbn [dispatch]. unfold absorb. cbn [timers].
    rewrite scheduled_onRequestError_. reflexivity.
  - unfold readHead in Hrun. injection Hrun as Hc Hrel Hsid.
    cbn [retry]. unfold resumeRead_, bind, get, emit, effects. cbn [snd app].
    rewrite Hc, Hrel, Hsid. reflexivity.
Qed.

Lemma onRequestError_spec_keeps_read : keeps_read_path onRequestError_spec.
Proof.
  intros e s. unfold onRequestError_spec. rewrite onRequestError__unfold. reflexivity.
Qed.

(** After one accepted read the next one fails; a write is queued and fails
    as well before the read is retried. *)
Lemma read_failure_repeats_witness :
  let w := run onRequestError_spec [LoadEnd readRequest_ (mkXhr 4 200 (lit "QUJD"))]
             (openedWorld (mkRelay [] (lit "r/")) [] 22 (lit "sid0")) in
  let evs := [CallAsyncWrite (lit "QUI=") false; Failure writeRequest_] in
  keeps_read_path onRequestError_spec
  /\ forallb (fun ev => negb (is_read_done ev)) evs = true
  /\ effects (retry RetryResumeRead
                (sock (run onRequestError_spec evs
                         (dispatch onRequestError_spec (Failure readRequest_) w))))
     = [XhrGet readRequest_ (ReadUrl (lit "r/") (lit "sid0") 3)].
Proof.
  cbv zeta. split; [exact onRequestError_spec_keeps_read|]. split; [reflexivity|].
  exact (proj2 (proj2 (proj2
    (@read_failure_repeats onRequestError_spec
       [CallAsyncWrite (lit "QUI=") false; Failure writeRequest_]
       (run onRequestError_spec [LoadEnd readRequest_ (mkXhr 4 200 (lit "QUJD"))]
          (openedWorld (mkRelay [] (lit "r/")) [] 22 (lit "sid0")))
       onRequestError_spec_keeps_read eq_refl)))).
Defined.

(** X17. A write answered 410 closes the stream and keeps the queue as it is,
    the chunk that was refused still at its head.  After that [asyncWrite]
    goes on queueing behind it and sends nothing. *)
Theorem write_gone_keeps_queue
    (onRequestError : Target -> M unit) (gone : Xhr) (data : str) (w : World)
    (msg : str) (rest : list str) :
  readyState gone = 4%Z -> status gone = 410%Z ->
  writeQueue_ (sock w) = msg :: rest ->
  let w1 := dispatch onRequestError (LoadEnd writeRequest_ gone) w in
  let w2 := dispatch onRequestError (CallAsyncWrite data false) w1 in
  lifecycle (sock w1) = Closed
  /\ writeQueue_ (sock w1) = msg :: rest
  /\ trace w1 = trace w /\ timers w1 = timers w
  /\ trace w2 = trace w /\ timers w2 = timers w
  /\ exists more, writeQueue_ (sock w2) = msg :: rest ++ more
                  /\ (data <> [] -> more <> []).
Proof.
  intros Hr Hs Hq. cbv zeta.
  assert (Hgone : dispatch onRequestError (LoadEnd writeRequest_ gone) w
                  = mkWorld (set_lifecycle Closed (sock w)) (timers w) (trace w)).
  { cbn [dispatch]. unfold absorb.
    rewrite onWriteDone__gone by (rewrite ?Hr, ?Hs; reflexivity).
    cbn. rewrite !app_nil_r. reflexivity. }
  rewrite Hgone. cbn [sock timers trace lifecycle writeQueue_ set_lifecycle].
  split; [reflexivity|]. split; [exact Hq|].
  split; [reflexivity|]. split; [reflexivity|].
  cbn [dispatch]. unfold absorb. cbn [sock timers trace].
  destruct data as [|c data].
  - cbn. rewrite !app_nil_r. split; [reflexivity|]. split; [reflexivity|].
    exists []. rewrite app_nil_r. split; [exact Hq | congruence].
  - destruct (@asyncWrite_unfold (c :: data) (set_lifecycle Closed (sock w))
                ltac:(discriminate))
      as (full & last & _ & _ & _ & _ & _ & ->).
    cbn [writeQueue_ set_lifecycle after effects fst snd set_writeQueue_].
    rewrite Hq. cbn. rewrite !app_nil_r.
    split; [reflexivity|]. split; [reflexivity|].
    exists (full ++ [last]). split; [reflexivity|].
    intros _. destruct full; discriminate.
Qed.

(** One chunk in flight is refused; a second write follows. *)
Lemma write_gone_keeps_queue_witness :
  let w := dispatch onRequestError_undefined (CallAsyncWrite (lit "QUI=") false)
             (openedWorld (mkRelay [] (lit "r/")) [] 22 (lit "sid0")) in
  let w1 := dispatch onRequestError_undefined (LoadEnd writeRequest_ (mkXhr 4 410 [])) w in
  let w2 := dispatch onRequestError_undefined (CallAsyncWrite (lit "Q0Q=") false) w1 in
  writeQueue_ (sock w) = [lit "QUI"]
  /\ lifecycle (sock w1) = Closed
  /\ trace w2 = trace w
  /\ writeQueue_ (sock w2) = [lit "QUI"; lit "Q0Q"].
Proof.
  cbv zeta. split; [reflexivity|].
  pose proof (@write_gone_keeps_queue onRequestError_undefined (mkXhr 4 410 [])
                (lit "Q0Q=")
                (dispatch onRequestError_undefined (CallAsyncWrite (lit "QUI=") false)
                   (openedWorld (mkRelay [] (lit "r/")) [] 22 (lit "sid0")))
                (lit "QUI") [] eq_refl eq_refl eq_refl) as H.
  cbv zeta in H. destruct H as (Hc & _ & _ & _ & Ht & _ & _).
  split; [exact Hc|]. split; [exact Ht | reflexivity].
Defined.
